(** * JSON to TypeScript interface generator: the conversion core of [App.vue]

    A shallow embedding of [convertJsonToTypeScript], [generateTypeDefinition],
    [formatPropertyKey], [toCamelCase] and [capitalizeFirstLetter], and the
    properties of the generated text.

    Conventions of the model.
    - A JavaScript string is a [string]; the character classes of the regular
      expressions of the source are ASCII classes, and [toUpperCase] is the
      ASCII case mapping.
    - The reactive [options] object is read, never written, by the conversion;
      it is passed as a [ConversionOptions] record.
    - The two [Map]s that [convertJsonToTypeScript] creates and hands to the
      walk are threaded through the walk as a [Registries] value.
    - The [path] argument of [generateTypeDefinition] is built at every call
      and read nowhere; it is left out.
    - [generateTypeDefinition] and [convertJsonToTypeScript] are the walk
      and the conversion on a stack that never overflows; the functions
      named [...Within] are the same on a stack that holds a given number
      of nested activations, where a deeper walk throws a [RangeError]. *)

From Stdlib Require Import List String Ascii Bool Arith NArith.
From Stdlib Require Import Floats.SpecFloat.
From Stdlib Require Import Lia.
Import ListNotations.

Local Open Scope list_scope.
Local Open Scope string_scope.

(** ** Characters and strings *)

Module Chars.

Definition code (c : ascii) : N := N_of_ascii c.

Definition isLower (c : ascii) : bool := (97 <=? code c)%N && (code c <=? 122)%N.
Definition isUpper (c : ascii) : bool := (65 <=? code c)%N && (code c <=? 90)%N.
Definition isDigit (c : ascii) : bool := (48 <=? code c)%N && (code c <=? 57)%N.

(** The class [[a-zA-Z0-9_]]. *)
Definition isWordChar (c : ascii) : bool :=
  isLower c || isUpper c || isDigit c || (c =? "_")%char.

(** The class [[a-zA-Z_$]], first character of a bare property key. *)
Definition isIdentStart (c : ascii) : bool :=
  isLower c || isUpper c || (c =? "_")%char || (c =? "$")%char.

(** The class [[a-zA-Z0-9_$]]. *)
Definition isIdentPart (c : ascii) : bool :=
  isWordChar c || (c =? "$")%char.

(** White space that [String.prototype.trim] removes, within ASCII:
    tab, line feed, vertical tab, form feed, carriage return, space. *)
Definition isSpace (c : ascii) : bool :=
  ((9 <=? code c)%N && (code c <=? 13)%N) || (code c =? 32)%N.

Definition toUpperCase (c : ascii) : ascii :=
  if isLower c then ascii_of_N (code c - 32) else c.

(** The double quote and the line feed, as one-character strings. *)
Definition dq : string := String "034"%char EmptyString.
Definition nl : string := String "010"%char EmptyString.

End Chars.

Import Chars.

Module Str.

Fixpoint filter (p : ascii -> bool) (s : string) : string :=
  match s with
  | EmptyString => EmptyString
  | String c s' => if p c then String c (filter p s') else filter p s'
  end.

Fixpoint map (f : ascii -> ascii) (s : string) : string :=
  match s with
  | EmptyString => EmptyString
  | String c s' => String (f c) (map f s')
  end.

Fixpoint forallb (p : ascii -> bool) (s : string) : bool :=
  match s with
  | EmptyString => true
  | String c s' => p c && forallb p s'
  end.

Definition isEmpty (s : string) : bool :=
  match s with EmptyString => true | String _ _ => false end.

Fixpoint trimStart (s : string) : string :=
  match s with
  | EmptyString => EmptyString
  | String c s' => if isSpace c then trimStart s' else s
  end.

Fixpoint trimEnd (s : string) : string :=
  match s with
  | EmptyString => EmptyString
  | String c s' =>
      let r := trimEnd s' in
      if isSpace c && isEmpty r then EmptyString else String c r
  end.

(** [s.trim()] *)
Definition trim (s : string) : string := trimEnd (trimStart s).

End Str.

(** ** The helpers of the source *)

(** [str.replace(/_([a-z])/g, (_, letter) => letter.toUpperCase())]: the
    matches are taken left to right and do not overlap. *)
Fixpoint toCamelCase (str : string) : string :=
  match str with
  | EmptyString => EmptyString
  | String c rest =>
      match rest with
      | String letter rest' =>
          if (c =? "_")%char && isLower letter
          then String (toUpperCase letter) (toCamelCase rest')
          else String c (toCamelCase rest)
      | EmptyString => String c EmptyString
      end
  end.

(** [string.charAt(0).toUpperCase() + string.slice(1)], for a string whose
    first character is in ASCII; the case mapping of the other characters
    is not modelled. *)
Definition capitalizeFirstLetter (s : string) : string :=
  match s with
  | EmptyString => EmptyString
  | String c rest => String (toUpperCase c) rest
  end.

(** [name.replace(/[^a-zA-Z0-9_]/g, "")] *)
Definition sanitizeName (name : string) : string := Str.filter isWordChar name.

(** [/^[a-zA-Z_$][a-zA-Z0-9_$]*$/.test(key)] *)
Definition isBareIdentifier (key : string) : bool :=
  match key with
  | EmptyString => false
  | String c rest => isIdentStart c && Str.forallb isIdentPart rest
  end.

(** [value.replace(/[^a-zA-Z0-9_]/g, "_").replace(/^[0-9]/, "_$&")]. A
    character outside ASCII is replaced once for each of its bytes here,
    once for each of its code units by the source. *)
Definition enumKey (value : string) : string :=
  let replaced := Str.map (fun c => if isWordChar c then c else "_"%char) value in
  match replaced with
  | String c _ => if isDigit c then String "_"%char replaced else replaced
  | EmptyString => replaced
  end.

(** ** Containers of the JavaScript runtime *)

(** A [Map<string, V>], as the list of its entries in iteration order. *)
Module JsMap.

Definition t (V : Type) : Type := list (string * V).

Definition empty {V : Type} : t V := [].

(** [m.set(k, v)]: an existing key keeps its place and takes the new value,
    a new key goes last. *)
Fixpoint set {V : Type} (k : string) (v : V) (m : t V) : t V :=
  match m with
  | [] => [(k, v)]
  | (k', v') :: m' =>
      if (k' =? k)%string then (k, v) :: m' else (k', v') :: set k v m'
  end.

Fixpoint get {V : Type} (k : string) (m : t V) : option V :=
  match m with
  | [] => None
  | (k', v') :: m' => if (k' =? k)%string then Some v' else get k m'
  end.

Definition keys {V : Type} (m : t V) : list string := List.map fst m.

Definition has {V : Type} (k : string) (m : t V) : bool :=
  existsb (String.eqb k) (keys m).

End JsMap.

(** A [Set<string>], as the list of its members in iteration order. *)
Module JsSet.

Definition t : Type := list string.

Definition has (x : string) (s : t) : bool := existsb (String.eqb x) s.

(** [s.add(x)] *)
Definition add (x : string) (s : t) : t := if has x s then s else (s ++ [x])%list.

(** [new Set(xs)]: the members are added one by one, first to last. *)
Definition of_list (xs : list string) : t :=
  fold_left (fun s x => add x s) xs [].

Definition size (s : t) : nat := List.length s.

End JsSet.

(** An ordinary object used as a dictionary from property keys to strings
    ([InterfaceProperties]), as the list of its own properties in the order
    [Object.entries] lists them: the keys that are array indices first, in
    ascending numeric order, then the other keys in creation order. *)
Module JsObject.

Definition t : Type := list (string * string).

Definition empty : t := [].

Fixpoint digitsValue (s : string) (acc : N) : option N :=
  match s with
  | EmptyString => Some acc
  | String c s' =>
      if isDigit c then digitsValue s' (acc * 10 + (code c - 48))%N else None
  end.

(** The array index that a property key denotes, if any: a canonical decimal
    numeral below [2^32 - 1]. *)
Definition arrayIndex (k : string) : option N :=
  match k with
  | EmptyString => None
  | String c rest =>
      if (c =? "0")%char
      then (if Str.isEmpty rest then Some 0%N else None)
      else match digitsValue k 0 with
           | Some n => if (n <? 4294967295)%N then Some n else None
           | None => None
           end
  end.

Fixpoint replace (k v : string) (o : t) : option t :=
  match o with
  | [] => None
  | (k', v') :: o' =>
      if (k' =? k)%string then Some ((k, v) :: o')
      else option_map (cons (k', v')) (replace k v o')
  end.

(** A new index key goes before the first own key that is no index or a
    greater one. *)
Fixpoint insertIndex (n : N) (k v : string) (o : t) : t :=
  match o with
  | [] => [(k, v)]
  | (k', v') :: o' =>
      match arrayIndex k' with
      | Some n' => if (n' <? n)%N then (k', v') :: insertIndex n k v o'
                   else (k, v) :: o
      | None => (k, v) :: o
      end
  end.

(** [o[k] = v] for a string [v], on an object created by [{}]. The key
    [__proto__] reaches the setter inherited from [Object.prototype], which
    ignores a value that is neither an object nor null: no own property is
    made. *)
Definition set (k v : string) (o : t) : t :=
  if (k =? "__proto__")%string then o
  else match replace k v o with
       | Some o' => o'
       | None =>
           match arrayIndex k with
           | Some n => insertIndex n k v o
           | None => (o ++ [(k, v)])%list
           end
       end.

(** [Object.entries(o)] *)
Definition entries (o : t) : list (string * string) := o.

End JsObject.

(** ** The data model of the source *)

Record ConversionOptions : Type := mkOptions {
  detectEnums : bool;
  camelCase : bool;
  markOptional : bool;
  strictNullChecks : bool
}.

(** A decoded JSON value. The entries of an object are its own properties in
    the order [Object.entries] lists them. The payload of a number is a
    binary floating-point datum; the conversion never reads it. *)
#[warnings="-register-all"]
Inductive JsonValue : Type :=
| JNull : JsonValue
| JBool : bool -> JsonValue
| JNumber : spec_float -> JsonValue
| JString : string -> JsonValue
| JArray : list JsonValue -> JsonValue
| JObject : list (string * JsonValue) -> JsonValue.

Definition InterfaceProperties : Type := JsObject.t.

(** The two maps created by [convertJsonToTypeScript] and filled by the walk. *)
Record Registries : Type := mkRegistries {
  interfaces : JsMap.t InterfaceProperties;
  enumTypes : JsMap.t (list string)
}.

Definition noRegistries : Registries :=
  {| interfaces := JsMap.empty; enumTypes := JsMap.empty |}.

(** [typeof item === "string"] *)
Definition isString (item : JsonValue) : bool :=
  match item with JString _ => true | _ => false end.

(** [value.filter((item) => typeof item === "string") as string[]] *)
Fixpoint stringItems (value : list JsonValue) : list string :=
  match value with
  | [] => []
  | JString s :: rest => s :: stringItems rest
  | _ :: rest => stringItems rest
  end.

(** ** The walk *)

(** The result of the union branch and of the single-type branch of the
    array case, from the types of the items. An index out of range reads
    [undefined], which a template prints as such. *)
Definition arrayTypeOf (itemTypes : list string) : string :=
  if (JsSet.size (JsSet.of_list itemTypes) =? 1)%nat
  then nth 0 itemTypes "undefined" ++ "[]"
  else "(" ++ String.concat " | " (JsSet.of_list itemTypes) ++ ")[]".

Fixpoint generateTypeDefinition (options : ConversionOptions)
    (value : JsonValue) (name : string) (regs : Registries)
    {struct value} : string * Registries :=
  match value with
  | JNull => (if strictNullChecks options then "null" else "any", regs)
  | JArray items =>
      match items with
      | [] => ("any[]", regs)
      | _ :: _ =>
          if detectEnums options && List.forallb isString items
          then
            let enumName := name ++ "Enum" in
            (enumName,
             {| interfaces := interfaces regs;
                enumTypes := JsMap.set enumName
                               (JsSet.of_list (stringItems items))
                               (enumTypes regs) |})
          else
            let '(itemTypes, regs') :=
              (fix mapItems (l : list JsonValue) (r : Registries)
                 : list string * Registries :=
                 match l with
                 | [] => ([], r)
                 | item :: l' =>
                     let '(t, r1) :=
                       generateTypeDefinition options item (name ++ "Item") r in
                     let '(ts, r2) := mapItems l' r1 in
                     (t :: ts, r2)
                 end) items regs in
            (arrayTypeOf itemTypes, regs')
      end
  | JObject entries =>
      let interfaceName := sanitizeName name in
      let '(properties, regs') :=
        (fix forEntries (l : list (string * JsonValue))
             (properties : InterfaceProperties) (r : Registries)
           : InterfaceProperties * Registries :=
           match l with
           | [] => (properties, r)
           | (key, val) :: l' =>
               let propName :=
                 if camelCase options then toCamelCase key else key in
               let '(propType, r1) :=
                 generateTypeDefinition options val
                   (interfaceName ++ capitalizeFirstLetter propName) r in
               forEntries l' (JsObject.set key propType properties) r1
           end) entries JsObject.empty regs in
      (interfaceName,
       {| interfaces := JsMap.set interfaceName properties (interfaces regs');
          enumTypes := enumTypes regs' |})
  | JString _ => ("string", regs)
  | JNumber _ => ("number", regs)
  | JBool _ => ("boolean", regs)
  end.

(** ** Rendering *)

(** [formatPropertyKey] *)
Definition formatPropertyKey (options : ConversionOptions) (key : string)
  : string :=
  let formattedKey := if camelCase options then toCamelCase key else key in
  if negb (isBareIdentifier formattedKey)
  then "'" ++ formattedKey ++ "'"
  else formattedKey.

(** The body of [enumValues.forEach((value, index) => ...)], from [index] on:
    every member but the one at [length - 1] is followed by a comma. *)
Fixpoint renderEnumValues (length index : nat) (enumValues : list string)
  : string :=
  match enumValues with
  | [] => ""
  | value :: rest =>
      "  " ++ enumKey value ++ " = " ++ dq ++ value ++ dq
        ++ (if (index <? length - 1)%nat then "," else "") ++ nl
        ++ renderEnumValues length (S index) rest
  end.

Definition renderEnum (entry : string * list string) : string :=
  let '(enumName, enumValues) := entry in
  "enum " ++ enumName ++ " {" ++ nl
    ++ renderEnumValues (List.length enumValues) 0 enumValues
    ++ "}" ++ nl ++ nl.

Definition renderProperty (options : ConversionOptions)
    (entry : string * string) : string :=
  let '(key, type) := entry in
  let formattedKey := formatPropertyKey options key in
  let optional := if markOptional options then "?" else "" in
  "  " ++ formattedKey ++ optional ++ ": " ++ type ++ ";" ++ nl.

Definition renderInterface (options : ConversionOptions)
    (entry : string * InterfaceProperties) : string :=
  let '(name, properties) := entry in
  "interface " ++ name ++ " {" ++ nl
    ++ String.concat "" (List.map (renderProperty options)
                           (JsObject.entries properties))
    ++ "}" ++ nl ++ nl.

(** The text added by the loop over [enumTypes], when the flag is set. *)
Definition renderEnums (options : ConversionOptions)
    (enums : JsMap.t (list string)) : string :=
  if detectEnums options
  then String.concat "" (List.map renderEnum enums)
  else "".

(** The text added by the loop over [interfaces]. *)
Definition renderInterfaces (options : ConversionOptions)
    (ifaces : JsMap.t InterfaceProperties) : string :=
  String.concat "" (List.map (renderInterface options) ifaces).

(** [output] before it is trimmed. *)
Definition renderRegistries (options : ConversionOptions) (regs : Registries)
  : string :=
  renderEnums options (enumTypes regs)
    ++ renderInterfaces options (interfaces regs).

(** ** The conversion *)

Definition convertJsonToTypeScript (options : ConversionOptions)
    (json : JsonValue) (rootName : string) : string :=
  let interfaces := JsMap.empty in
  let enumTypes := JsMap.empty in
  let '(_, regs) :=
    generateTypeDefinition options json rootName
      {| interfaces := interfaces; enumTypes := enumTypes |} in
  Str.trim (renderRegistries options regs).

(** The registries as the walk from the root leaves them. *)
Definition walk (options : ConversionOptions) (json : JsonValue)
    (rootName : string) : Registries :=
  snd (generateTypeDefinition options json rootName noRegistries).

(** The type expression of a node. *)
Definition typeOf (options : ConversionOptions) (value : JsonValue)
    (name : string) : string :=
  fst (generateTypeDefinition options value name noRegistries).

(** The two loops of the walk, as functions of their own: the [map] over the
    items of an array and the [for] over the entries of an object. *)
Definition mapItems (options : ConversionOptions) (name : string)
  : list JsonValue -> Registries -> list string * Registries :=
  fix mapItems (l : list JsonValue) (r : Registries)
    : list string * Registries :=
    match l with
    | [] => ([], r)
    | item :: l' =>
        let '(t, r1) :=
          generateTypeDefinition options item (name ++ "Item") r in
        let '(ts, r2) := mapItems l' r1 in
        (t :: ts, r2)
    end.

Definition forEntries (options : ConversionOptions) (interfaceName : string)
  : list (string * JsonValue) -> InterfaceProperties -> Registries ->
    InterfaceProperties * Registries :=
  fix forEntries (l : list (string * JsonValue))
      (properties : InterfaceProperties) (r : Registries)
    : InterfaceProperties * Registries :=
    match l with
    | [] => (properties, r)
    | (key, val) :: l' =>
        let propName :=
          if camelCase options then toCamelCase key else key in
        let '(propType, r1) :=
          generateTypeDefinition options val
            (interfaceName ++ capitalizeFirstLetter propName) r in
        forEntries l' (JsObject.set key propType properties) r1
    end.

(** The name under which the value of the property [key] is walked. *)
Definition childName (options : ConversionOptions) (interfaceName key : string)
  : string :=
  interfaceName
    ++ capitalizeFirstLetter (if camelCase options then toCamelCase key else key).

(** The properties object that the loop over the entries of an object builds,
    from the type expressions of the values. *)
Definition propertiesOf (options : ConversionOptions) (interfaceName : string)
    (entries : list (string * JsonValue)) : InterfaceProperties :=
  fold_left
    (fun properties e =>
       JsObject.set (fst e)
         (typeOf options (snd e) (childName options interfaceName (fst e)))
         properties)
    entries JsObject.empty.

(** ** The writes of the walk

    The calls [interfaces.set(name, properties)] and
    [enumTypes.set(name, values)] that the walk of a value makes, in the
    order it makes them. An object is written after the walk of its
    entries; an array of strings taken as an enum is written at once. *)

Fixpoint records (options : ConversionOptions) (value : JsonValue)
    (name : string) {struct value} : list (string * InterfaceProperties) :=
  match value with
  | JArray items =>
      match items with
      | [] => []
      | _ :: _ =>
          if detectEnums options && List.forallb isString items then []
          else flat_map (fun item => records options item (name ++ "Item")) items
      end
  | JObject entries =>
      let interfaceName := sanitizeName name in
      (flat_map
         (fun e => records options (snd e)
                     (childName options interfaceName (fst e)))
         entries
       ++ [(interfaceName, propertiesOf options interfaceName entries)])%list
  | _ => []
  end.

Fixpoint enums (options : ConversionOptions) (value : JsonValue)
    (name : string) {struct value} : list (string * list string) :=
  match value with
  | JArray items =>
      match items with
      | [] => []
      | _ :: _ =>
          if detectEnums options && List.forallb isString items
          then [(name ++ "Enum", JsSet.of_list (stringItems items))]
          else flat_map (fun item => enums options item (name ++ "Item")) items
      end
  | JObject entries =>
      flat_map
        (fun e => enums options (snd e)
                    (childName options (sanitizeName name) (fst e)))
        entries
  | _ => []
  end.

(** A sequence of [set] calls on a map. *)
Definition setAll {V : Type} (writes : list (string * V)) (m : JsMap.t V)
  : JsMap.t V :=
  fold_left (fun m w => JsMap.set (fst w) (snd w) m) writes m.

(** The value of the last write to [k] in a sequence of writes. *)
Fixpoint lastWrite {V : Type} (k : string) (writes : list (string * V))
  : option V :=
  match writes with
  | [] => None
  | (k', v) :: rest =>
      match lastWrite k rest with
      | Some w => Some w
      | None => if (k' =? k)%string then Some v else None
      end
  end.

(** The registries after the writes of the walk of a value. *)
Definition written (options : ConversionOptions) (value : JsonValue)
    (name : string) (regs : Registries) : Registries :=
  {| interfaces := setAll (records options value name) (interfaces regs);
     enumTypes := setAll (enums options value name) (enumTypes regs) |}.

(** ** Notions of the specification *)

(** The object nodes of a value in the order the walk discovers them, each
    with its record name and its properties: a node comes before the nodes
    nested in it. *)
Fixpoint visited (options : ConversionOptions) (value : JsonValue)
    (name : string) {struct value} : list (string * InterfaceProperties) :=
  match value with
  | JArray items =>
      match items with
      | [] => []
      | _ :: _ =>
          if detectEnums options && List.forallb isString items then []
          else flat_map (fun item => visited options item (name ++ "Item")) items
      end
  | JObject entries =>
      let interfaceName := sanitizeName name in
      (interfaceName, propertiesOf options interfaceName entries)
        :: flat_map
             (fun e => visited options (snd e)
                         (childName options interfaceName (fst e)))
             entries
  | _ => []
  end.

(** The distinct members of a list in first-seen order: the first member,
    then the distinct members of the rest that differ from it. *)
Fixpoint distinctFirstSeen (l : list string) : list string :=
  match l with
  | [] => []
  | x :: rest =>
      x :: List.filter (fun y => negb (y =? x)%string) (distinctFirstSeen rest)
  end.

(** All members of a list are textually identical. *)
Definition allIdentical (l : list string) : bool :=
  match l with
  | [] => true
  | x :: rest => List.forallb (String.eqb x) rest
  end.

Definition isPrimitive (value : JsonValue) : bool :=
  match value with
  | JNull | JBool _ | JNumber _ | JString _ => true
  | JArray _ | JObject _ => false
  end.

Definition isNonStringPrimitive (value : JsonValue) : bool :=
  match value with
  | JNull | JBool _ | JNumber _ => true
  | JString _ | JArray _ | JObject _ => false
  end.

(** A text that starts with a character that is no white space and ends
    with a closing brace and two line feeds, as every rendered block does. *)
Definition isBlock (text : string) : Prop :=
  exists c body,
    text = String c (body ++ "}" ++ nl ++ nl) /\ isSpace c = false.

(** The number of entries of a map under the key [k]. *)
Definition countKey {V : Type} (k : string) (m : JsMap.t V) : nat :=
  List.length (List.filter (String.eqb k) (JsMap.keys m)).

(** ** The walk as a relation

    The same walk, one rule for each branch of [generateTypeDefinition] and
    for each turn of its two loops: [Walk options value name regs type regs']
    reads "called on [value] and [name] with the registries [regs], the walk
    returns [type] and leaves the registries [regs']". *)

Inductive Walk (options : ConversionOptions)
  : JsonValue -> string -> Registries -> string -> Registries -> Prop :=
| Walk_null name regs :
    Walk options JNull name regs
      (if strictNullChecks options then "null" else "any") regs
| Walk_empty_array name regs :
    Walk options (JArray []) name regs "any[]" regs
| Walk_enum items name regs :
    items <> [] ->
    detectEnums options && List.forallb isString items = true ->
    Walk options (JArray items) name regs (name ++ "Enum")
      {| interfaces := interfaces regs;
         enumTypes := JsMap.set (name ++ "Enum")
                        (JsSet.of_list (stringItems items))
                        (enumTypes regs) |}
| Walk_array items name regs itemTypes regs' :
    items <> [] ->
    detectEnums options && List.forallb isString items = false ->
    WalkItems options name items regs itemTypes regs' ->
    Walk options (JArray items) name regs (arrayTypeOf itemTypes) regs'
| Walk_object entries name regs properties regs' :
    WalkEntries options (sanitizeName name) entries JsObject.empty regs
      properties regs' ->
    Walk options (JObject entries) name regs (sanitizeName name)
      {| interfaces := JsMap.set (sanitizeName name) properties
                         (interfaces regs');
         enumTypes := enumTypes regs' |}
| Walk_string s name regs : Walk options (JString s) name regs "string" regs
| Walk_number x name regs : Walk options (JNumber x) name regs "number" regs
| Walk_boolean b name regs : Walk options (JBool b) name regs "boolean" regs

with WalkItems (options : ConversionOptions)
  : string -> list JsonValue -> Registries -> list string -> Registries -> Prop :=
| WalkItems_nil name regs : WalkItems options name [] regs [] regs
| WalkItems_cons name item rest regs t regs1 ts regs2 :
    Walk options item (name ++ "Item") regs t regs1 ->
    WalkItems options name rest regs1 ts regs2 ->
    WalkItems options name (item :: rest) regs (t :: ts) regs2

with WalkEntries (options : ConversionOptions)
  : string -> list (string * JsonValue) -> InterfaceProperties -> Registries ->
    InterfaceProperties -> Registries -> Prop :=
| WalkEntries_nil interfaceName properties regs :
    WalkEntries options interfaceName [] properties regs properties regs
| WalkEntries_cons interfaceName key val rest properties regs
    propType regs1 properties' regs2 :
    Walk options val (childName options interfaceName key) regs
      propType regs1 ->
    WalkEntries options interfaceName rest
      (JsObject.set key propType properties) regs1 properties' regs2 ->
    WalkEntries options interfaceName ((key, val) :: rest) properties regs
      properties' regs2.

Scheme Walk_mut := Minimality for Walk Sort Prop
  with WalkItems_mut := Minimality for WalkItems Sort Prop
  with WalkEntries_mut := Minimality for WalkEntries Sort Prop.

Combined Scheme Walk_mutind from Walk_mut, WalkItems_mut, WalkEntries_mut.

(** A call of [convertJsonToTypeScript]: the walk from the root over two
    fresh maps, then the rendering of the maps. *)
Definition Converts (options : ConversionOptions) (json : JsonValue)
    (rootName : string) (output : string) : Prop :=
  exists type regs,
    Walk options json rootName noRegistries type regs /\
    output = Str.trim (renderRegistries options regs).

(** ** Example inputs *)

(** The numbers 1 and 2 as floating-point data. *)
Definition one : spec_float := S754_finite false xH Z0.
Definition two : spec_float := S754_finite false xH (Zpos xH).

(** [{"roles": ["admin","user","admin"]}] *)
Definition rolesExample : JsonValue :=
  JObject [("roles", JArray [JString "admin"; JString "user"; JString "admin"])].

(** [{"id":1,"user_name":"john_doe","is_active":true,"roles":["admin","user"]}] *)
Definition usageExample : JsonValue :=
  JObject [("id", JNumber one);
           ("user_name", JString "john_doe");
           ("is_active", JBool true);
           ("roles", JArray [JString "admin"; JString "user"])].

(** [{"address": {"city": "Boston"}}] *)
Definition nestedExample : JsonValue :=
  JObject [("address", JObject [("city", JString "Boston")])].

(** [{"a!": {"x": 1}, "a": {"y": "s"}}]: two properties whose records
    both take the name [RootObjectA]. *)
Definition siblingsExample : JsonValue :=
  JObject [("a!", JObject [("x", JNumber one)]);
           ("a", JObject [("y", JString "s")])].

(** [{"$": {"x": 1}}]: the record of the property takes the name of the
    record of the root. *)
Definition nestedSameNameExample : JsonValue :=
  JObject [("$", JObject [("x", JNumber one)])].

(** ** Two statements of the specification, as they are worded *)

(** C3 as stated: the records are registered in the order in which the walk
    discovers their nodes. *)
Definition registeredInDiscoveryOrder (options : ConversionOptions)
    (json : JsonValue) (rootName : string) : Prop :=
  JsMap.keys (interfaces (walk options json rootName)) =
  JsSet.of_list (List.map fst (visited options json rootName)).

(** C8 as stated: for every record name the registry holds one entry,
    with the properties of the node of that name that the walk visits
    last. *)
Definition lastVisitedWins (options : ConversionOptions) (json : JsonValue)
    (rootName : string) : Prop :=
  forall name,
    In name (List.map fst (visited options json rootName)) ->
    countKey name (interfaces (walk options json rootName)) = 1 /\
    JsMap.get name (interfaces (walk options json rootName)) =
    lastWrite name (visited options json rootName).

(** ** The order of the own properties of an object

    The keys of an object as the runtime lists them: the array indices in
    strictly ascending order, then the other keys. [last] is the greatest
    index met so far. *)

Definition isIndexKey (k : string) : bool :=
  match JsObject.arrayIndex k with Some _ => true | None => false end.

Fixpoint inKeyOrderFrom (last : option N) (keys : list string) : bool :=
  match keys with
  | [] => true
  | k :: rest =>
      match JsObject.arrayIndex k with
      | Some n =>
          match last with Some m => (m <? n)%N | None => true end
          && inKeyOrderFrom (Some n) rest
      | None => List.forallb (fun k' => negb (isIndexKey k')) rest
      end
  end.

Definition inKeyOrder (keys : list string) : bool := inKeyOrderFrom None keys.

(** A text starts with a given text. *)
Definition startsWith (start text : string) : Prop :=
  exists rest, text = start ++ rest.

(** A value holds a [null] somewhere. *)
Fixpoint hasNull (value : JsonValue) : bool :=
  match value with
  | JNull => true
  | JArray items => List.existsb hasNull items
  | JObject entries => List.existsb (fun e => hasNull (snd e)) entries
  | _ => false
  end.

(** The line of one member of an enum, without the comma and the line
    feed. *)
Definition enumMember (value : string) : string :=
  "  " ++ enumKey value ++ " = " ++ dq ++ value ++ dq.

(** ** The walk on a bounded stack

    [generateTypeDefinition] calls itself once for each level of nesting
    and has no guard on the depth: when the stack of the engine is
    exhausted the call throws a [RangeError]. [stack] is the number of
    nested activations of [generateTypeDefinition] that the stack still
    holds; what the other frames take is left out. The maps are local to
    the conversion, so what a walk that throws has written is lost with
    them. *)

Inductive Outcome (A : Type) : Type :=
| Returned (result : A)
| RangeError.

Arguments Returned {A} result.
Arguments RangeError {A}.

Fixpoint generateTypeDefinitionWithin (stack : nat)
    (options : ConversionOptions) (value : JsonValue) (name : string)
    (regs : Registries) {struct stack} : Outcome (string * Registries) :=
  match stack with
  | O => RangeError
  | S stack' =>
      match value with
      | JNull =>
          Returned (if strictNullChecks options then "null" else "any", regs)
      | JArray items =>
          match items with
          | [] => Returned ("any[]", regs)
          | _ :: _ =>
              if detectEnums options && List.forallb isString items
              then
                let enumName := name ++ "Enum" in
                Returned
                  (enumName,
                   {| interfaces := interfaces regs;
                      enumTypes := JsMap.set enumName
                                     (JsSet.of_list (stringItems items))
                                     (enumTypes regs) |})
              else
                match
                  (fix mapItems (l : list JsonValue) (r : Registries)
                     : Outcome (list string * Registries) :=
                     match l with
                     | [] => Returned ([], r)
                     | item :: l' =>
                         match generateTypeDefinitionWithin stack' options
                                 item (name ++ "Item") r with
                         | RangeError => RangeError
                         | Returned (t, r1) =>
                             match mapItems l' r1 with
                             | RangeError => RangeError
                             | Returned (ts, r2) => Returned (t :: ts, r2)
                             end
                         end
                     end) items regs
                with
                | RangeError => RangeError
                | Returned (itemTypes, regs') =>
                    Returned (arrayTypeOf itemTypes, regs')
                end
          end
      | JObject entries =>
          let interfaceName := sanitizeName name in
          match
            (fix forEntries (l : list (string * JsonValue))
                 (properties : InterfaceProperties) (r : Registries)
               : Outcome (InterfaceProperties * Registries) :=
               match l with
               | [] => Returned (properties, r)
               | (key, val) :: l' =>
                   let propName :=
                     if camelCase options then toCamelCase key else key in
                   match generateTypeDefinitionWithin stack' options val
                           (interfaceName ++ capitalizeFirstLetter propName)
                           r with
                   | RangeError => RangeError
                   | Returned (propType, r1) =>
                       forEntries l' (JsObject.set key propType properties) r1
                   end
               end) entries JsObject.empty regs
          with
          | RangeError => RangeError
          | Returned (properties, regs') =>
              Returned
                (interfaceName,
                 {| interfaces := JsMap.set interfaceName properties
                                    (interfaces regs');
                    enumTypes := enumTypes regs' |})
          end
      | JString _ => Returned ("string", regs)
      | JNumber _ => Returned ("number", regs)
      | JBool _ => Returned ("boolean", regs)
      end
  end.

(** The two loops of the walk on a bounded stack. *)
Definition mapItemsWithin (stack : nat) (options : ConversionOptions)
    (name : string)
  : list JsonValue -> Registries -> Outcome (list string * Registries) :=
  fix mapItems (l : list JsonValue) (r : Registries)
    : Outcome (list string * Registries) :=
    match l with
    | [] => Returned ([], r)
    | item :: l' =>
        match generateTypeDefinitionWithin stack options item
                (name ++ "Item") r with
        | RangeError => RangeError
        | Returned (t, r1) =>
            match mapItems l' r1 with
            | RangeError => RangeError
            | Returned (ts, r2) => Returned (t :: ts, r2)
            end
        end
    end.

Definition forEntriesWithin (stack : nat) (options : ConversionOptions)
    (interfaceName : string)
  : list (string * JsonValue) -> InterfaceProperties -> Registries ->
    Outcome (InterfaceProperties * Registries) :=
  fix forEntries (l : list (string * JsonValue))
      (properties : InterfaceProperties) (r : Registries)
    : Outcome (InterfaceProperties * Registries) :=
    match l with
    | [] => Returned (properties, r)
    | (key, val) :: l' =>
        let propName :=
          if camelCase options then toCamelCase key else key in
        match generateTypeDefinitionWithin stack options val
                (interfaceName ++ capitalizeFirstLetter propName) r with
        | RangeError => RangeError
        | Returned (propType, r1) =>
            forEntries l' (JsObject.set key propType properties) r1
        end
    end.

(** [convertJsonToTypeScript] on a bounded stack: the walk from the root
    over two fresh maps, then the rendering if the walk returns. *)
Definition convertJsonToTypeScriptWithin (stack : nat)
    (options : ConversionOptions) (json : JsonValue) (rootName : string)
  : Outcome string :=
  match generateTypeDefinitionWithin stack options json rootName
          {| interfaces := JsMap.empty; enumTypes := JsMap.empty |} with
  | RangeError => RangeError
  | Returned (_, regs) => Returned (Str.trim (renderRegistries options regs))
  end.

(** The number of nested activations of [generateTypeDefinition] that the
    walk of a value needs: one for the value, and under it those of the
    items of an array that is not taken as an enum, or of the entries of
    an object. *)
Fixpoint callDepth (options : ConversionOptions) (value : JsonValue)
    {struct value} : nat :=
  match value with
  | JArray items =>
      match items with
      | [] => 1
      | _ :: _ =>
          if detectEnums options && List.forallb isString items then 1
          else S (fold_right
                    (fun item d => Nat.max (callDepth options item) d)
                    0 items)
      end
  | JObject entries =>
      S (fold_right
           (fun e d => Nat.max (callDepth options (snd e)) d) 0 entries)
  | _ => 1
  end.

(** The empty array inside [depth] arrays of one item: [[[...[]...]]]. *)
Fixpoint nestedArrays (depth : nat) : JsonValue :=
  match depth with
  | O => JArray []
  | S depth' => JArray [nestedArrays depth']
  end.

(** C9 as stated, on a stack that holds [stack] activations: every value
    is converted to a string. *)
Definition neverThrowsOn (stack : nat) (options : ConversionOptions)
    (rootName : string) : Prop :=
  forall json,
    exists output,
      convertJsonToTypeScriptWithin stack options json rootName
      = Returned output.

(** ** Type expressions

    The type expression of a value, before it is printed: a keyword, the
    name of an interface, the name of an enum, or an array of the
    expressions of the items. *)

#[warnings="-register-all"]
Inductive TypeExpr : Type :=
| TKeyword (text : string)
| TInterface (name : string)
| TEnum (name : string)
| TArray (items : list TypeExpr).

Fixpoint printType (t : TypeExpr) : string :=
  match t with
  | TKeyword text => text
  | TInterface name => name
  | TEnum name => name
  | TArray items =>
      match items with
      | [] => "any[]"
      | _ :: _ => arrayTypeOf (List.map printType items)
      end
  end.

Fixpoint typeExprOf (options : ConversionOptions) (value : JsonValue)
    (name : string) {struct value} : TypeExpr :=
  match value with
  | JNull => TKeyword (if strictNullChecks options then "null" else "any")
  | JArray items =>
      match items with
      | [] => TArray []
      | _ :: _ =>
          if detectEnums options && List.forallb isString items
          then TEnum (name ++ "Enum")
          else TArray (List.map
                         (fun item => typeExprOf options item (name ++ "Item"))
                         items)
      end
  | JObject _ => TInterface (sanitizeName name)
  | JString _ => TKeyword "string"
  | JNumber _ => TKeyword "number"
  | JBool _ => TKeyword "boolean"
  end.

(** The names of interfaces, and of enums, that a type expression holds. *)
Fixpoint interfaceRefs (t : TypeExpr) : list string :=
  match t with
  | TInterface name => [name]
  | TArray items => flat_map interfaceRefs items
  | _ => []
  end.

Fixpoint enumRefs (t : TypeExpr) : list string :=
  match t with
  | TEnum name => [name]
  | TArray items => flat_map enumRefs items
  | _ => []
  end.

(** ** The component around the conversion

    The refs of the component, and the three functions that read and write
    them around [convertJsonToTypeScript]. [JSON.parse] belongs to the
    runtime: it is a parameter, which returns the decoded value or what it
    throws, an [Error] with its message or something else. *)

Inductive Thrown : Type :=
| ErrorWith (message : string)
| NotAnError.

Inductive ParseResult : Type :=
| Parsed (value : JsonValue)
| Throws (error : Thrown).

Record AppState : Type := mkAppState {
  jsonInput : string;
  jsonError : string;
  typescriptOutput : string;
  interfaceName : string;
  copied : bool;
  appOptions : ConversionOptions
}.

Section Component.

Variable JSON_parse : string -> ParseResult.

(** The activations of [generateTypeDefinition] that the stack holds when
    [generateTypeScript] calls the conversion, and the message of the
    [RangeError] of the engine. *)
Variable stack : nat.
Variable rangeErrorMessage : string.

(** [jsonInput.value !== "" && !jsonError.value] *)
Definition isValidJson (s : AppState) : bool :=
  negb (Str.isEmpty (jsonInput s)) && Str.isEmpty (jsonError s).

Definition setJsonError (message : string) (s : AppState) : AppState :=
  {| jsonInput := jsonInput s;
     jsonError := message;
     typescriptOutput := typescriptOutput s;
     interfaceName := interfaceName s;
     copied := copied s;
     appOptions := appOptions s |}.

Definition setTypescriptOutput (output : string) (s : AppState) : AppState :=
  {| jsonInput := jsonInput s;
     jsonError := jsonError s;
     typescriptOutput := output;
     interfaceName := interfaceName s;
     copied := copied s;
     appOptions := appOptions s |}.

Definition validateJsonInput (s : AppState) : AppState :=
  if Str.isEmpty (jsonInput s) then setJsonError "" s
  else match JSON_parse (jsonInput s) with
       | Parsed _ => setJsonError "" s
       | Throws (ErrorWith message) =>
           setJsonError ("Invalid JSON: " ++ message) s
       | Throws NotAnError => setJsonError "Invalid JSON: Unknown error" s
       end.

(** The [try] encloses the decoding and the conversion; the [catch]
    reports what either throws. *)
Definition generateTypeScript (s : AppState) : AppState :=
  match JSON_parse (jsonInput s) with
  | Parsed parsed =>
      match convertJsonToTypeScriptWithin stack (appOptions s) parsed
              (interfaceName s) with
      | Returned output => setTypescriptOutput output s
      | RangeError =>
          setJsonError ("Error generating TypeScript: " ++ rangeErrorMessage) s
      end
  | Throws (ErrorWith message) =>
      setJsonError ("Error generating TypeScript: " ++ message) s
  | Throws NotAnError =>
      setJsonError "Error generating TypeScript: Unknown error" s
  end.

End Component.

(** * Properties *)

(** ** Unfolding equations of the walk *)

Lemma generateTypeDefinition_array options items name regs :
  generateTypeDefinition options (JArray items) name regs =
  match items with
  | [] => ("any[]", regs)
  | _ :: _ =>
      if detectEnums options && List.forallb isString items
      then (name ++ "Enum",
            {| interfaces := interfaces regs;
               enumTypes := JsMap.set (name ++ "Enum")
                              (JsSet.of_list (stringItems items))
                              (enumTypes regs) |})
      else let '(itemTypes, regs') := mapItems options name items regs in
           (arrayTypeOf itemTypes, regs')
  end.
Proof. destruct items; reflexivity. Qed.

Lemma generateTypeDefinition_object options entries name regs :
  generateTypeDefinition options (JObject entries) name regs =
  let '(properties, regs') :=
    forEntries options (sanitizeName name) entries JsObject.empty regs in
  (sanitizeName name,
   {| interfaces := JsMap.set (sanitizeName name) properties (interfaces regs');
      enumTypes := enumTypes regs' |}).
Proof. reflexivity. Qed.

Lemma mapItems_cons options name item l r :
  mapItems options name (item :: l) r =
  let '(t, r1) := generateTypeDefinition options item (name ++ "Item") r in
  let '(ts, r2) := mapItems options name l r1 in
  (t :: ts, r2).
Proof. reflexivity. Qed.

Lemma forEntries_cons options iname key val l properties r :
  forEntries options iname ((key, val) :: l) properties r =
  let '(propType, r1) :=
    generateTypeDefinition options val (childName options iname key) r in
  forEntries options iname l (JsObject.set key propType properties) r1.
Proof. reflexivity. Qed.

(** ** Structural induction on JSON values *)

Section JsonValue_induction.

Variable P : JsonValue -> Prop.
Hypothesis Hnull : P JNull.
Hypothesis Hbool : forall b, P (JBool b).
Hypothesis Hnumber : forall x, P (JNumber x).
Hypothesis Hstring : forall s, P (JString s).
Hypothesis Harray : forall items, Forall P items -> P (JArray items).
Hypothesis Hobject :
  forall entries, Forall (fun e => P (snd e)) entries -> P (JObject entries).

Fixpoint JsonValue_nested_ind (v : JsonValue) : P v :=
  match v as v0 return P v0 with
  | JNull => Hnull
  | JBool b => Hbool b
  | JNumber x => Hnumber x
  | JString s => Hstring s
  | JArray items =>
      Harray items
        ((fix all (l : list JsonValue) : Forall P l :=
            match l with
            | [] => Forall_nil P
            | x :: l' => Forall_cons x (JsonValue_nested_ind x) (all l')
            end) items)
  | JObject entries =>
      Hobject entries
        ((fix all (l : list (string * JsonValue))
            : Forall (fun e => P (snd e)) l :=
            match l with
            | [] => Forall_nil _
            | e :: l' =>
                Forall_cons (P := fun e => P (snd e)) e
                  (JsonValue_nested_ind (snd e)) (all l')
            end) entries)
  end.

End JsonValue_induction.

(** ** Maps and sets *)

Lemma JsMap_get_set {V : Type} (k k' : string) (v : V) (m : JsMap.t V) :
  JsMap.get k (JsMap.set k' v m) =
  if (k' =? k)%string then Some v else JsMap.get k m.
Proof.
  induction m as [|[k0 v0] m IH]; simpl.
  - reflexivity.
  - destruct (k0 =? k')%string eqn:E0; simpl.
    + apply String.eqb_eq in E0; subst k0.
      destruct (k' =? k)%string; reflexivity.
    + destruct (k0 =? k)%string eqn:E1.
      * apply String.eqb_eq in E1; subst k0.
        rewrite String.eqb_sym, E0. reflexivity.
      * exact IH.
Qed.

Lemma JsMap_keys_set {V : Type} (k : string) (v : V) (m : JsMap.t V) :
  JsMap.keys (JsMap.set k v m) = JsSet.add k (JsMap.keys m).
Proof.
  unfold JsSet.add, JsSet.has.
  induction m as [|[k0 v0] m IH]; simpl.
  - reflexivity.
  - rewrite (String.eqb_sym k k0).
    destruct (k0 =? k)%string eqn:E0; simpl.
    + apply String.eqb_eq in E0; subst k0. reflexivity.
    + fold (JsMap.keys m). rewrite IH.
      destruct (existsb (String.eqb k) (JsMap.keys m)); reflexivity.
Qed.

Lemma setAll_app {V : Type} (w1 w2 : list (string * V)) (m : JsMap.t V) :
  setAll (w1 ++ w2)%list m = setAll w2 (setAll w1 m).
Proof. apply fold_left_app. Qed.

Lemma JsMap_keys_setAll {V : Type} (ws : list (string * V)) (m : JsMap.t V) :
  JsMap.keys (setAll ws m) =
  fold_left (fun s x => JsSet.add x s) (List.map fst ws) (JsMap.keys m).
Proof.
  revert m; induction ws as [|[k v] ws IH]; intro m; simpl.
  - reflexivity.
  - unfold setAll in *; simpl. rewrite IH, JsMap_keys_set. reflexivity.
Qed.

Lemma JsMap_get_setAll {V : Type} (k : string) (ws : list (string * V))
    (m : JsMap.t V) :
  JsMap.get k (setAll ws m) =
  match lastWrite k ws with
  | Some v => Some v
  | None => JsMap.get k m
  end.
Proof.
  revert m; induction ws as [|[k' v] ws IH]; intro m; simpl.
  - reflexivity.
  - unfold setAll in *; simpl. rewrite IH.
    destruct (lastWrite k ws); [reflexivity|].
    rewrite JsMap_get_set. destruct (k' =? k)%string; reflexivity.
Qed.

Lemma JsSet_has_true (x : string) (s : JsSet.t) :
  JsSet.has x s = true <-> In x s.
Proof.
  unfold JsSet.has. rewrite existsb_exists. split.
  - intros [y [Hy E]]. apply String.eqb_eq in E. now subst.
  - intro H. exists x. split; [assumption | apply String.eqb_refl].
Qed.

Lemma JsSet_has_false (x : string) (s : JsSet.t) :
  JsSet.has x s = false <-> ~ In x s.
Proof.
  rewrite <- JsSet_has_true. destruct (JsSet.has x s); split; congruence.
Qed.

Lemma JsSet_add_NoDup (x : string) (s : JsSet.t) :
  NoDup s -> NoDup (JsSet.add x s).
Proof.
  intro H. unfold JsSet.add. destruct (JsSet.has x s) eqn:E; [assumption|].
  apply JsSet_has_false in E.
  apply NoDup_rev in H. rewrite <- (rev_involutive (s ++ [x])%list).
  apply NoDup_rev. rewrite rev_app_distr. simpl. constructor.
  - rewrite <- in_rev. assumption.
  - assumption.
Qed.

Lemma JsSet_add_In (x y : string) (s : JsSet.t) :
  In y (JsSet.add x s) <-> y = x \/ In y s.
Proof.
  unfold JsSet.add. destruct (JsSet.has x s) eqn:E.
  - apply JsSet_has_true in E. split; [auto|]. intros [->|H]; assumption.
  - rewrite in_app_iff. simpl. split.
    + intros [H|[H|[]]]; auto.
    + intros [H|H]; auto.
Qed.

Lemma JsSet_addAll_NoDup (xs : list string) (s : JsSet.t) :
  NoDup s -> NoDup (fold_left (fun s x => JsSet.add x s) xs s).
Proof.
  revert s; induction xs as [|x xs IH]; intros s H; simpl.
  - assumption.
  - apply IH, JsSet_add_NoDup, H.
Qed.

Lemma JsSet_addAll_In (y : string) (xs : list string) (s : JsSet.t) :
  In y (fold_left (fun s x => JsSet.add x s) xs s) <-> In y xs \/ In y s.
Proof.
  revert s; induction xs as [|x xs IH]; intro s; simpl.
  - tauto.
  - rewrite IH, JsSet_add_In. intuition congruence.
Qed.

Lemma JsSet_of_list_NoDup (xs : list string) : NoDup (JsSet.of_list xs).
Proof. apply JsSet_addAll_NoDup. constructor. Qed.

Lemma JsSet_of_list_In (y : string) (xs : list string) :
  In y (JsSet.of_list xs) <-> In y xs.
Proof. unfold JsSet.of_list. rewrite JsSet_addAll_In. simpl. tauto. Qed.

(** ** The walk as a type expression and a sequence of writes *)

Section Walk_facts.

Variable options : ConversionOptions.

Let itemName (name : string) : string := name ++ "Item".

Lemma mapItems_spec name items :
  Forall (fun v => forall name r,
            generateTypeDefinition options v name r =
            (typeOf options v name, written options v name r)) items ->
  forall r,
    mapItems options name items r =
    (List.map (fun item => typeOf options item (itemName name)) items,
     {| interfaces :=
          setAll (flat_map (fun item => records options item (itemName name))
                    items) (interfaces r);
        enumTypes :=
          setAll (flat_map (fun item => enums options item (itemName name))
                    items) (enumTypes r) |}).
Proof.
  induction 1 as [|item items Hitem _ IH]; intro r.
  - destruct r; reflexivity.
  - rewrite mapItems_cons, Hitem, IH. simpl.
    rewrite !setAll_app. reflexivity.
Qed.

Lemma forEntries_spec iname entries :
  Forall (fun e => forall name r,
            generateTypeDefinition options (snd e) name r =
            (typeOf options (snd e) name, written options (snd e) name r))
         entries ->
  forall properties r,
    forEntries options iname entries properties r =
    (fold_left
       (fun properties e =>
          JsObject.set (fst e)
            (typeOf options (snd e) (childName options iname (fst e)))
            properties)
       entries properties,
     {| interfaces :=
          setAll (flat_map
                    (fun e => records options (snd e)
                                (childName options iname (fst e)))
                    entries) (interfaces r);
        enumTypes :=
          setAll (flat_map
                    (fun e => enums options (snd e)
                                (childName options iname (fst e)))
                    entries) (enumTypes r) |}).
Proof.
  induction 1 as [|[key val] entries Hval _ IH]; intros properties r.
  - destruct r; reflexivity.
  - rewrite forEntries_cons. simpl in Hval. rewrite Hval, IH. simpl.
    rewrite !setAll_app. reflexivity.
Qed.

(** The walk of a value returns its type expression, which does not depend
    on the registries, and makes the writes of [records] and [enums]. *)
Lemma generateTypeDefinition_spec value :
  forall name regs,
    generateTypeDefinition options value name regs =
    (typeOf options value name, written options value name regs).
Proof.
  induction value as [| b | x | s | items IH | entries IH]
    using JsonValue_nested_ind; intros name regs;
    try (destruct regs; reflexivity).
  - unfold typeOf. rewrite !generateTypeDefinition_array.
    destruct items as [|item items]; [destruct regs; reflexivity|].
    unfold written. cbn [records enums].
    destruct (detectEnums options && forallb isString (item :: items)).
    + reflexivity.
    + rewrite !(mapItems_spec name (item :: items) IH). reflexivity.
  - unfold typeOf. rewrite !generateTypeDefinition_object.
    rewrite !(forEntries_spec (sanitizeName name) entries IH).
    unfold written. cbn [records enums fst]. rewrite setAll_app.
    reflexivity.
Qed.

End Walk_facts.

(** ** [new Set] keeps the distinct members in first-seen order *)

Lemma filter_filter {A : Type} (p q : A -> bool) (l : list A) :
  List.filter p (List.filter q l) = List.filter (fun y => q y && p y) l.
Proof.
  induction l as [|a l IH]; simpl; [reflexivity|].
  destruct (q a); simpl; [destruct (p a)|]; rewrite IH; reflexivity.
Qed.

Lemma filter_all {A : Type} (p : A -> bool) (l : list A) :
  (forall y, In y l -> p y = true) -> List.filter p l = l.
Proof.
  induction l as [|a l IH]; simpl; intro H; [reflexivity|].
  rewrite (H a) by auto. rewrite IH by auto. reflexivity.
Qed.

Lemma filter_none {A : Type} (p : A -> bool) (l : list A) :
  (forall y, In y l -> p y = false) -> List.filter p l = [].
Proof.
  induction l as [|a l IH]; simpl; intro H; [reflexivity|].
  rewrite (H a) by auto. apply IH. auto.
Qed.

Lemma JsSet_has_app (y : string) (s1 s2 : JsSet.t) :
  JsSet.has y (s1 ++ s2)%list = JsSet.has y s1 || JsSet.has y s2.
Proof. apply existsb_app. Qed.

Lemma JsSet_addAll_distinct (xs : list string) :
  forall s,
    fold_left (fun s x => JsSet.add x s) xs s =
    (s ++ List.filter (fun y => negb (JsSet.has y s)) (distinctFirstSeen xs))%list.
Proof.
  induction xs as [|x xs IH]; intro s; simpl.
  - symmetry. apply app_nil_r.
  - rewrite IH. unfold JsSet.add. destruct (JsSet.has x s) eqn:E; simpl.
    + rewrite filter_filter. f_equal. apply filter_ext. intro y.
      destruct (y =? x)%string eqn:Eyx; simpl; [|reflexivity].
      apply String.eqb_eq in Eyx; subst y. rewrite E. reflexivity.
    + rewrite <- app_assoc. simpl. do 2 f_equal.
      rewrite filter_filter. apply filter_ext. intro y.
      rewrite JsSet_has_app. unfold JsSet.has at 2. simpl.
      rewrite orb_false_r, negb_orb. apply andb_comm.
Qed.

Lemma JsSet_of_list_distinct (xs : list string) :
  JsSet.of_list xs = distinctFirstSeen xs.
Proof.
  unfold JsSet.of_list. rewrite JsSet_addAll_distinct. simpl.
  apply filter_all. reflexivity.
Qed.

Lemma distinctFirstSeen_NoDup (xs : list string) : NoDup (distinctFirstSeen xs).
Proof. rewrite <- JsSet_of_list_distinct. apply JsSet_of_list_NoDup. Qed.

Lemma distinctFirstSeen_In (y : string) (xs : list string) :
  In y (distinctFirstSeen xs) <-> In y xs.
Proof. rewrite <- JsSet_of_list_distinct. apply JsSet_of_list_In. Qed.

Lemma forallb_false_exists {A : Type} (p : A -> bool) (l : list A) :
  List.forallb p l = false -> exists y, In y l /\ p y = false.
Proof.
  induction l as [|a l IH]; simpl; [discriminate|].
  destruct (p a) eqn:E; simpl.
  - intro H. destruct (IH H) as [y [Hy Hp]]. exists y. auto.
  - intros _. exists a. auto.
Qed.

Lemma allIdentical_true (x : string) (rest : list string) :
  allIdentical (x :: rest) = true <-> (forall t, In t (x :: rest) -> t = x).
Proof.
  simpl. rewrite forallb_forall. split.
  - intros H t [<-|Ht]; [reflexivity|].
    symmetry. apply String.eqb_eq, H, Ht.
  - intros H t Ht. apply String.eqb_eq. symmetry. apply H. auto.
Qed.

Lemma size_one_allIdentical (x : string) (rest : list string) :
  (JsSet.size (JsSet.of_list (x :: rest)) =? 1)%nat = allIdentical (x :: rest).
Proof.
  rewrite JsSet_of_list_distinct. unfold JsSet.size. simpl.
  destruct (forallb (String.eqb x) rest) eqn:E.
  - rewrite filter_none; [reflexivity|].
    intros y Hy. apply (proj1 (distinctFirstSeen_In _ _)) in Hy.
    rewrite forallb_forall in E. specialize (E y Hy).
    rewrite String.eqb_sym, E. reflexivity.
  - apply forallb_false_exists in E. destruct E as [y [Hy Hxy]].
    apply (proj2 (distinctFirstSeen_In _ _)) in Hy.
    assert (Hin : In y (List.filter (fun y => negb (y =? x)%string)
                          (distinctFirstSeen rest))).
    { apply filter_In. split; [assumption|].
      rewrite String.eqb_sym, Hxy. reflexivity. }
    destruct (List.filter _ (distinctFirstSeen rest)); [destruct Hin|].
    reflexivity.
Qed.

(** The array case of the walk, in the words of the specification. *)
Lemma arrayTypeOf_spec (itemTypes : list string) :
  itemTypes <> [] ->
  arrayTypeOf itemTypes =
  if allIdentical itemTypes then List.hd "" itemTypes ++ "[]"
  else "(" ++ String.concat " | " (distinctFirstSeen itemTypes) ++ ")[]".
Proof.
  destruct itemTypes as [|x rest]; [congruence|]. intros _.
  unfold arrayTypeOf. rewrite size_one_allIdentical, JsSet_of_list_distinct.
  reflexivity.
Qed.

(** ** Consequences for the type expression and the registries *)

Lemma typeOf_any_registries options value name regs :
  fst (generateTypeDefinition options value name regs) =
  typeOf options value name.
Proof. rewrite generateTypeDefinition_spec. reflexivity. Qed.

Lemma registries_after_walk options value name regs :
  snd (generateTypeDefinition options value name regs) =
  written options value name regs.
Proof. rewrite generateTypeDefinition_spec. reflexivity. Qed.

Lemma walk_written options json rootName :
  walk options json rootName = written options json rootName noRegistries.
Proof. apply registries_after_walk. Qed.

Lemma convert_walk options json rootName :
  convertJsonToTypeScript options json rootName =
  Str.trim (renderRegistries options (walk options json rootName)).
Proof.
  unfold convertJsonToTypeScript, walk, noRegistries.
  destruct (generateTypeDefinition _ _ _ _). reflexivity.
Qed.

Lemma mapItems_types options name items regs :
  fst (mapItems options name items regs) =
  List.map (fun item => typeOf options item (name ++ "Item")) items.
Proof.
  rewrite mapItems_spec; [reflexivity|].
  apply Forall_forall. intros v _. apply generateTypeDefinition_spec.
Qed.

Lemma typeOf_array options items name :
  items <> [] ->
  detectEnums options && List.forallb isString items = false ->
  typeOf options (JArray items) name =
  arrayTypeOf (List.map (fun item => typeOf options item (name ++ "Item")) items).
Proof.
  intros Hne Hcond. unfold typeOf at 1. rewrite generateTypeDefinition_array.
  destruct items as [|item rest]; [congruence|]. rewrite Hcond.
  rewrite <- (mapItems_types options name (item :: rest) noRegistries).
  destruct (mapItems _ _ _ _). reflexivity.
Qed.

Lemma typeOf_string_item options item name :
  isString item = true -> typeOf options item name = "string".
Proof. destruct item; simpl; try discriminate. reflexivity. Qed.

Lemma records_primitive options value name :
  isPrimitive value = true -> records options value name = [].
Proof. destruct value; simpl; try discriminate; reflexivity. Qed.

Lemma enums_primitive options value name :
  isPrimitive value = true -> enums options value name = [].
Proof. destruct value; simpl; try discriminate; reflexivity. Qed.

Lemma flat_map_nil {A B : Type} (f : A -> list B) (l : list A) :
  (forall x, In x l -> f x = []) -> flat_map f l = [].
Proof.
  induction l as [|a l IH]; simpl; intro H; [reflexivity|].
  rewrite (H a) by auto. rewrite IH by auto. reflexivity.
Qed.

Lemma isString_primitive item : isString item = true -> isPrimitive item = true.
Proof. destruct item; simpl; congruence. Qed.

Lemma nonString_primitive item :
  isNonStringPrimitive item = true -> isPrimitive item = true.
Proof. destruct item; simpl; congruence. Qed.

Lemma records_primitives options items name :
  List.forallb isPrimitive items = true ->
  records options (JArray items) name = [].
Proof.
  intro H. destruct items as [|item rest]; [reflexivity|].
  cbn [records]. destruct (detectEnums options && _); [reflexivity|].
  apply flat_map_nil. intros x Hx. apply records_primitive.
  rewrite forallb_forall in H. auto.
Qed.

Lemma forallb_impl {A : Type} (p q : A -> bool) (l : list A) :
  (forall x, p x = true -> q x = true) ->
  List.forallb p l = true -> List.forallb q l = true.
Proof.
  intros Hpq. rewrite !forallb_forall. auto.
Qed.

(** Without enum detection the walk writes no enum. *)
Lemma enums_without_detection options value :
  detectEnums options = false -> forall name, enums options value name = [].
Proof.
  intro Hd.
  induction value as [| b | x | s | items IH | entries IH]
    using JsonValue_nested_ind; intro name; try reflexivity.
  - destruct items as [|item rest]; [reflexivity|].
    cbn [enums]. rewrite Hd. simpl andb. cbv iota.
    apply flat_map_nil. intros x Hx.
    rewrite Forall_forall in IH. auto.
  - cbn [enums]. apply flat_map_nil. intros e He.
    rewrite Forall_forall in IH. auto.
Qed.

Lemma renderRegistries_none options : renderRegistries options noRegistries = "".
Proof.
  unfold renderRegistries, renderEnums, renderInterfaces. simpl.
  destruct (detectEnums options); reflexivity.
Qed.

(** ** Arrays *)

(** C6. A non-empty array that is not taken as an enum: every item is
    classified under the name [<Name>Item]; if the type expressions of the
    items are all the same expression [T], the array has type [T[]];
    otherwise it has the parenthesised union of the distinct expressions in
    first-seen order, followed by [[]], and no expression occurs twice in the
    union. *)
Theorem array_type_expression options items name regs :
  items <> [] ->
  detectEnums options && List.forallb isString items = false ->
  let child := name ++ "Item" in
  let types := List.map (fun item => typeOf options item child) items in
  let result := fst (generateTypeDefinition options (JArray items) name regs) in
  (forall item r,
      fst (generateTypeDefinition options item child r) =
      typeOf options item child) /\
  (forall T, (forall t, In t types -> t = T) -> result = T ++ "[]") /\
  (~ (exists T, forall t, In t types -> t = T) ->
   result = "(" ++ String.concat " | " (distinctFirstSeen types) ++ ")[]") /\
  NoDup (distinctFirstSeen types) /\
  (forall t, In t (distinctFirstSeen types) <-> In t types) /\
  JsSet.of_list types = distinctFirstSeen types.
Proof.
  intros Hne Hcond child types result.
  assert (Hres : result =
                 if allIdentical types then List.hd "" types ++ "[]"
                 else "(" ++ String.concat " | " (distinctFirstSeen types)
                        ++ ")[]").
  { unfold result. rewrite typeOf_any_registries, typeOf_array by assumption.
    apply arrayTypeOf_spec. unfold types.
    destruct items; [congruence | discriminate]. }
  assert (Hty : exists t rest, types = t :: rest).
  { unfold types. destruct items as [|item rest]; [congruence|].
    simpl. eauto. }
  destruct Hty as [t0 [rest Hty]].
  repeat split.
  - intros item r. apply typeOf_any_registries.
  - intros T HT. rewrite Hres, Hty.
    assert (t0 = T) by (apply HT; rewrite Hty; left; reflexivity). subst T.
    rewrite (proj2 (allIdentical_true t0 rest)); [reflexivity|].
    rewrite <- Hty. exact HT.
  - intros Hnot. rewrite Hres.
    destruct (allIdentical types) eqn:E; [|reflexivity].
    exfalso. apply Hnot. exists t0. rewrite Hty in *.
    apply allIdentical_true, E.
  - apply distinctFirstSeen_NoDup.
  - apply distinctFirstSeen_In.
  - apply distinctFirstSeen_In.
  - apply JsSet_of_list_distinct.
Qed.

(** On [[1, "a", 2]] the union has exactly two members. *)
Lemma array_type_expression_witness :
  fst (generateTypeDefinition (mkOptions true false false true)
         (JArray [JNumber one; JString "a"; JNumber two]) "Root" noRegistries)
  = "(number | string)[]".
Proof.
  pose proof (array_type_expression (mkOptions true false false true)
                [JNumber one; JString "a"; JNumber two] "Root" noRegistries)
    as H.
  simpl in H. destruct H as [_ [_ [H _]]]; [discriminate | reflexivity |].
  apply H. intros [T HT].
  assert (H1 : "number" = T) by (apply HT; simpl; auto).
  assert (H2 : "string" = T) by (apply HT; simpl; auto).
  congruence.
Defined.

(** ** Arrays of strings and enum detection *)

Lemma mapItems_strings options name items regs :
  List.forallb isString items = true ->
  mapItems options name items regs = (List.map (fun _ => "string") items, regs).
Proof.
  revert regs. induction items as [|item rest IH]; intros regs H.
  - reflexivity.
  - simpl in H. apply andb_prop in H. destruct H as [Hitem Hrest].
    rewrite mapItems_cons. destruct item; try discriminate.
    simpl. rewrite (IH _ Hrest). reflexivity.
Qed.

Lemma arrayTypeOf_strings {A : Type} (a : A) (rest : list A) :
  arrayTypeOf (List.map (fun _ => "string") (a :: rest)) = "string[]".
Proof.
  cbn [List.map]. rewrite arrayTypeOf_spec by discriminate.
  rewrite (proj2 (allIdentical_true _ _)); [reflexivity|].
  intros t [<-|Ht]; [reflexivity|].
  apply in_map_iff in Ht. destruct Ht as [_ [<- _]]. reflexivity.
Qed.

Lemma string_array_without_detection options items name regs :
  detectEnums options = false ->
  items <> [] ->
  List.forallb isString items = true ->
  generateTypeDefinition options (JArray items) name regs = ("string[]", regs).
Proof.
  intros Hd Hne Hs. rewrite generateTypeDefinition_array.
  destruct items as [|item rest]; [congruence|].
  rewrite Hd. simpl andb. cbv iota.
  rewrite (mapItems_strings _ _ _ _ Hs), arrayTypeOf_strings. reflexivity.
Qed.

Lemma walk_without_detection options json rootName :
  detectEnums options = false -> enumTypes (walk options json rootName) = [].
Proof.
  intro Hd. rewrite walk_written. unfold written. simpl.
  rewrite enums_without_detection by assumption. reflexivity.
Qed.

(** C7. With [detectEnums] off, a non-empty array of strings takes the
    generic rule and has type [string[]], the walk leaves the registries as
    they are, and the output holds no enum block: it is the text of the
    interface blocks. For [{"roles": ["admin","user","admin"]}] the output
    is one interface whose [roles] property has type [string[]]. *)
Theorem string_arrays_without_enums options :
  detectEnums options = false ->
  (forall items name regs,
      items <> [] -> List.forallb isString items = true ->
      generateTypeDefinition options (JArray items) name regs
      = ("string[]", regs)) /\
  (forall json rootName,
      enumTypes (walk options json rootName) = [] /\
      renderEnums options (enumTypes (walk options json rootName)) = "" /\
      convertJsonToTypeScript options json rootName =
      Str.trim (renderInterfaces options
                  (interfaces (walk options json rootName)))) /\
  convertJsonToTypeScript options rolesExample "RootObject" =
    "interface RootObject {" ++ nl
      ++ "  roles" ++ (if markOptional options then "?" else "")
      ++ ": string[];" ++ nl
      ++ "}".
Proof.
  intro Hd. split; [|split].
  - intros items name regs. apply string_array_without_detection, Hd.
  - intros json rootName. split; [|split].
    + apply walk_without_detection, Hd.
    + unfold renderEnums. rewrite Hd. reflexivity.
    + rewrite convert_walk. unfold renderRegistries, renderEnums.
      rewrite Hd. reflexivity.
  - destruct options as [d c m s]. simpl in Hd. subst d.
    destruct c, m, s; vm_compute; reflexivity.
Qed.

Lemma string_arrays_without_enums_witness :
  convertJsonToTypeScript (mkOptions false false false true)
    rolesExample "RootObject" =
  "interface RootObject {" ++ nl ++ "  roles: string[];" ++ nl ++ "}".
Proof.
  exact (proj2 (proj2 (string_arrays_without_enums
                         (mkOptions false false false true) eq_refl))).
Defined.

(** C2 as stated, on [{"roles": ["admin","user","admin"]}] with
    [detectEnums] off: the walk would register the enum
    [RootObjectRolesEnum] and the [roles] property would have that name as
    its type. Neither holds. *)
Lemma enum_name_without_detection_counterexample :
  ~ (JsMap.has "RootObjectRolesEnum"
       (enumTypes (walk (mkOptions false false false true)
                     rolesExample "RootObject")) = true \/
     JsMap.get "RootObject"
       (interfaces (walk (mkOptions false false false true)
                      rolesExample "RootObject"))
     = Some [("roles", "RootObjectRolesEnum")]).
Proof. intros [H|H]; vm_compute in H; discriminate H. Qed.

(** ** The type expression of the root *)

Lemma nonString_not_all_strings options item rest :
  isNonStringPrimitive item = true ->
  detectEnums options && List.forallb isString (item :: rest) = false.
Proof.
  intro H. destruct item; simpl in *; try discriminate;
    apply andb_false_r.
Qed.

Lemma walk_nonString_array options items rootName :
  List.forallb isNonStringPrimitive items = true ->
  walk options (JArray items) rootName = noRegistries.
Proof.
  intro H. rewrite walk_written. unfold written.
  rewrite records_primitives
    by (revert H; apply forallb_impl, nonString_primitive).
  destruct items as [|item rest]; [reflexivity|].
  cbn [enums]. simpl in H. apply andb_prop in H. destruct H as [Hitem Hrest].
  rewrite (nonString_not_all_strings options item rest Hitem).
  rewrite flat_map_nil; [reflexivity|].
  intros x [<-|Hx]; apply enums_primitive, nonString_primitive.
  - assumption.
  - rewrite forallb_forall in Hrest. auto.
Qed.

(** C10. The output is the trimmed text of the registered enum and
    interface blocks; the type expression that the walk returns for the
    root is not part of it. A root that registers nothing gives the empty
    string: a primitive, the empty array, an array of primitives none of
    which is a string. *)
Theorem root_type_expression_discarded options rootName :
  (forall json,
      convertJsonToTypeScript options json rootName =
      Str.trim (renderRegistries options (walk options json rootName))) /\
  (forall json,
      walk options json rootName = noRegistries ->
      convertJsonToTypeScript options json rootName = "") /\
  (forall json,
      isPrimitive json = true ->
      convertJsonToTypeScript options json rootName = "") /\
  convertJsonToTypeScript options (JArray []) rootName = "" /\
  (forall items,
      List.forallb isNonStringPrimitive items = true ->
      convertJsonToTypeScript options (JArray items) rootName = "").
Proof.
  assert (Hnone : forall json,
             walk options json rootName = noRegistries ->
             convertJsonToTypeScript options json rootName = "").
  { intros json H. rewrite convert_walk, H, renderRegistries_none.
    reflexivity. }
  split; [|split; [|split; [|split]]].
  - intro json. apply convert_walk.
  - exact Hnone.
  - intros json H. apply Hnone. rewrite walk_written. unfold written.
    rewrite records_primitive, enums_primitive by assumption. reflexivity.
  - apply Hnone. reflexivity.
  - intros items H. apply Hnone, walk_nonString_array, H.
Qed.

(** ** Enum detection on the examples *)

(** C5. For [{"roles": ["admin","user","admin"]}] with [detectEnums] on and
    the root name [RootObject], whatever the other flags: the enum
    [RootObjectRolesEnum], named from the record name, the capitalised
    property name and [Enum], is registered with the two members [admin]
    and [user] in first-seen order; the type of the [roles] property is
    the name of the enum; the output is the block of the enum, then the
    interface [RootObject] with the one property [roles]. *)
Theorem enum_detection_example camel optional strict :
  let options := mkOptions true camel optional strict in
  let regs := walk options rolesExample "RootObject" in
  sanitizeName "RootObject" ++ capitalizeFirstLetter "roles" ++ "Enum"
  = "RootObjectRolesEnum" /\
  enumTypes regs = [("RootObjectRolesEnum", ["admin"; "user"])] /\
  interfaces regs = [("RootObject", [("roles", "RootObjectRolesEnum")])] /\
  convertJsonToTypeScript options rolesExample "RootObject" =
    "enum RootObjectRolesEnum {" ++ nl
      ++ "  admin = " ++ dq ++ "admin" ++ dq ++ "," ++ nl
      ++ "  user = " ++ dq ++ "user" ++ dq ++ nl
      ++ "}" ++ nl ++ nl
      ++ "interface RootObject {" ++ nl
      ++ "  roles" ++ (if optional then "?" else "")
      ++ ": RootObjectRolesEnum;" ++ nl
      ++ "}".
Proof.
  intros options regs. subst options regs.
  split; [reflexivity|]. split; [destruct camel; reflexivity|].
  split; [destruct camel; reflexivity|].
  destruct camel, optional, strict; vm_compute; reflexivity.
Qed.

(** C1, on the code. For the usage example of the README with all four
    flags on, the output is the enum block and the interface block below:
    the [roles] property, whose value is an array, has the enum name as its
    type, with no [[]] after it. *)
Theorem usage_example_output :
  convertJsonToTypeScript (mkOptions true true true true)
    usageExample "RootObject" =
  "enum RootObjectRolesEnum {" ++ nl
    ++ "  admin = " ++ dq ++ "admin" ++ dq ++ "," ++ nl
    ++ "  user = " ++ dq ++ "user" ++ dq ++ nl
    ++ "}" ++ nl ++ nl
    ++ "interface RootObject {" ++ nl
    ++ "  id?: number;" ++ nl
    ++ "  userName?: string;" ++ nl
    ++ "  isActive?: boolean;" ++ nl
    ++ "  roles?: RootObjectRolesEnum;" ++ nl
    ++ "}".
Proof. vm_compute. reflexivity. Qed.

(** ** The order of the definitions *)

Lemma append_assoc (s1 s2 s3 : string) : (s1 ++ s2) ++ s3 = s1 ++ (s2 ++ s3).
Proof. induction s1 as [|c s1 IH]; simpl; [|rewrite IH]; reflexivity. Qed.

Lemma append_nil_r (s : string) : s ++ "" = s.
Proof. induction s as [|c s IH]; simpl; [|rewrite IH]; reflexivity. Qed.

Lemma concat_cons (x : string) (l : list string) :
  String.concat "" (x :: l) = x ++ String.concat "" l.
Proof. destruct l; simpl; [rewrite append_nil_r|]; reflexivity. Qed.

Lemma concat_app (l1 l2 : list string) :
  String.concat "" (l1 ++ l2)%list = String.concat "" l1 ++ String.concat "" l2.
Proof.
  induction l1 as [|x l1 IH].
  - reflexivity.
  - rewrite <- app_comm_cons, !concat_cons, IH, append_assoc. reflexivity.
Qed.

Lemma JsSet_of_list_snoc (xs : list string) (x : string) :
  JsSet.of_list (xs ++ [x])%list = JsSet.add x (JsSet.of_list xs).
Proof. unfold JsSet.of_list. rewrite fold_left_app. reflexivity. Qed.

Lemma walk_interfaces options json rootName :
  interfaces (walk options json rootName) =
  setAll (records options json rootName) JsMap.empty.
Proof. rewrite walk_written. reflexivity. Qed.

Lemma walk_enumTypes options json rootName :
  enumTypes (walk options json rootName) =
  setAll (enums options json rootName) JsMap.empty.
Proof. rewrite walk_written. reflexivity. Qed.

Lemma walk_interface_names options json rootName :
  JsMap.keys (interfaces (walk options json rootName)) =
  JsSet.of_list (List.map fst (records options json rootName)).
Proof. rewrite walk_interfaces. apply JsMap_keys_setAll. Qed.

Lemma trimEnd_closing (s : string) :
  Str.trimEnd (s ++ "}" ++ nl ++ nl) = s ++ "}".
Proof.
  induction s as [|a s IH]; [reflexivity|].
  change (Str.trimEnd (String a s ++ "}" ++ nl ++ nl))
    with (if isSpace a && Str.isEmpty (Str.trimEnd (s ++ "}" ++ nl ++ nl))
          then "" else String a (Str.trimEnd (s ++ "}" ++ nl ++ nl))).
  rewrite IH.
  replace (Str.isEmpty (s ++ "}")) with false by (destruct s; reflexivity).
  rewrite andb_false_r. reflexivity.
Qed.

(** Trimming a block removes its two final line feeds and nothing else. *)
Lemma trim_block c body :
  isSpace c = false ->
  Str.trim (String c (body ++ "}" ++ nl ++ nl)) = String c (body ++ "}").
Proof.
  intro Hc. unfold Str.trim. cbn [Str.trimStart]. rewrite Hc.
  apply (trimEnd_closing (String c body)).
Qed.

Lemma isBlock_app (a b : string) : isBlock a -> isBlock b -> isBlock (a ++ b).
Proof.
  intros [ca [ba [-> Ha]]] [cb [bb [-> Hb]]].
  exists ca, (ba ++ "}" ++ nl ++ nl ++ String cb bb). split; [|assumption].
  cbn [append]. f_equal. rewrite !append_assoc. reflexivity.
Qed.

Lemma isBlock_concat (x : string) (l : list string) :
  Forall isBlock (x :: l) -> isBlock (String.concat "" (x :: l)).
Proof.
  revert x. induction l as [|y l IH]; intros x H.
  - inversion H; subst. assumption.
  - rewrite concat_cons. inversion H; subst.
    apply isBlock_app; [assumption | apply IH; assumption].
Qed.

Lemma renderEnum_block entry : isBlock (renderEnum entry).
Proof.
  destruct entry as [enumName enumValues].
  exists "e"%char,
    ("num " ++ enumName ++ " {" ++ nl
       ++ renderEnumValues (List.length enumValues) 0 enumValues).
  split; [|reflexivity]. unfold renderEnum. cbn [append]. f_equal.
  rewrite !append_assoc. reflexivity.
Qed.

Lemma renderInterface_block options entry :
  isBlock (renderInterface options entry).
Proof.
  destruct entry as [name properties].
  exists "i"%char,
    ("nterface " ++ name ++ " {" ++ nl
       ++ String.concat "" (List.map (renderProperty options)
                              (JsObject.entries properties))).
  split; [|reflexivity]. unfold renderInterface. cbn [append]. f_equal.
  rewrite !append_assoc. reflexivity.
Qed.

(** The text before trimming is empty or a sequence of blocks; trimming the
    latter removes the two line feeds after the last closing brace. *)
Lemma trim_renderRegistries options regs :
  (renderRegistries options regs = "" /\
   Str.trim (renderRegistries options regs) = "") \/
  (exists body,
      renderRegistries options regs = body ++ "}" ++ nl ++ nl /\
      Str.trim (renderRegistries options regs) = body ++ "}").
Proof.
  unfold renderRegistries, renderEnums, renderInterfaces.
  set (enumBlocks := if detectEnums options
                     then List.map renderEnum (enumTypes regs) else []).
  replace (if detectEnums options
           then String.concat "" (List.map renderEnum (enumTypes regs))
           else "")
    with (String.concat "" enumBlocks)
    by (unfold enumBlocks; destruct (detectEnums options); reflexivity).
  rewrite <- concat_app.
  assert (Hblocks : Forall isBlock
            (enumBlocks
               ++ List.map (renderInterface options) (interfaces regs))%list).
  { apply Forall_app. split.
    - unfold enumBlocks. destruct (detectEnums options); [|constructor].
      apply Forall_forall. intros b Hb. apply in_map_iff in Hb.
      destruct Hb as [e [<- _]]. apply renderEnum_block.
    - apply Forall_forall. intros b Hb. apply in_map_iff in Hb.
      destruct Hb as [e [<- _]]. apply renderInterface_block. }
  destruct (enumBlocks
              ++ List.map (renderInterface options) (interfaces regs))%list
    as [|x l].
  - left. split; reflexivity.
  - right. destruct (isBlock_concat x l Hblocks) as [c [body [-> Hc]]].
    exists (String c body). split; [reflexivity | apply trim_block, Hc].
Qed.

(** On a root object with a nested object property the record of the nested
    object is registered, and rendered, before the record of the root. *)
Lemma discovery_order_counterexample :
  ~ registeredInDiscoveryOrder (mkOptions true false false true)
      nestedExample "RootObject".
Proof. unfold registeredInDiscoveryOrder. vm_compute. discriminate. Qed.

(** C3, amended. An enum is registered when the walk meets its array, a
    record when the walk of its object is over, after the records of the
    objects nested in it; a name written again keeps its first place. The
    output is the enum blocks, if enabled, in the order of the registry,
    then the interface blocks in the order of the registry, trimmed. For a
    root object, the name of its record is last in the registry unless a
    record nested in it has taken that name; on
    [{"address": {"city": "Boston"}}] the block of [RootObjectAddress]
    comes before the block of [RootObject]. *)
Theorem definitions_in_write_order options json rootName :
  let regs := walk options json rootName in
  enumTypes regs = setAll (enums options json rootName) JsMap.empty /\
  interfaces regs = setAll (records options json rootName) JsMap.empty /\
  JsMap.keys (enumTypes regs) =
    JsSet.of_list (List.map fst (enums options json rootName)) /\
  JsMap.keys (interfaces regs) =
    JsSet.of_list (List.map fst (records options json rootName)) /\
  (forall entries name,
      records options (JObject entries) name =
      (flat_map (fun e => records options (snd e)
                            (childName options (sanitizeName name) (fst e)))
         entries
       ++ [(sanitizeName name,
            propertiesOf options (sanitizeName name) entries)])%list) /\
  (forall entries,
      JsMap.keys (interfaces (walk options (JObject entries) rootName)) =
      JsSet.add (sanitizeName rootName)
        (JsSet.of_list
           (List.map fst
              (flat_map (fun e => records options (snd e)
                                    (childName options (sanitizeName rootName)
                                       (fst e)))
                 entries)))) /\
  convertJsonToTypeScript options json rootName =
    Str.trim
      ((if detectEnums options
        then String.concat "" (List.map renderEnum (enumTypes regs))
        else "")
       ++ String.concat ""
            (List.map (renderInterface options) (interfaces regs))) /\
  (convertJsonToTypeScript options json rootName = "" \/
   exists body,
     renderRegistries options regs = body ++ "}" ++ nl ++ nl /\
     convertJsonToTypeScript options json rootName = body ++ "}") /\
  convertJsonToTypeScript (mkOptions true false false true)
    nestedExample "RootObject" =
    "interface RootObjectAddress {" ++ nl
      ++ "  city: string;" ++ nl
      ++ "}" ++ nl ++ nl
      ++ "interface RootObject {" ++ nl
      ++ "  address: RootObjectAddress;" ++ nl
      ++ "}".
Proof.
  intro regs. subst regs.
  split; [apply walk_enumTypes|].
  split; [apply walk_interfaces|].
  split; [rewrite walk_enumTypes; apply JsMap_keys_setAll|].
  split; [apply walk_interface_names|].
  split; [reflexivity|].
  split.
  - intro entries. rewrite walk_interface_names. cbn [records].
    rewrite map_app. cbn [List.map fst].
    rewrite JsSet_of_list_snoc. reflexivity.
  - split; [apply convert_walk|]. split; [|vm_compute; reflexivity].
    rewrite convert_walk.
    destruct (trim_renderRegistries options (walk options json rootName))
      as [[_ H]|[body H]]; [left; exact H | right; exists body; exact H].
Qed.

(** ** Records of the same name *)

Lemma lastWrite_In {V : Type} (k : string) (ws : list (string * V)) :
  In k (List.map fst ws) -> exists v, lastWrite k ws = Some v.
Proof.
  induction ws as [|[k' v] ws IH]; simpl; [intros []|].
  intros [->|H].
  - destruct (lastWrite k ws); [eauto|].
    rewrite String.eqb_refl. eauto.
  - destruct (IH H) as [w ->]. eauto.
Qed.

Lemma JsMap_get_In {V : Type} (k : string) (v : V) (m : JsMap.t V) :
  JsMap.get k m = Some v -> In k (JsMap.keys m).
Proof.
  induction m as [|[k' v'] m IH]; simpl; [discriminate|].
  destruct (k' =? k)%string eqn:E.
  - apply String.eqb_eq in E. auto.
  - auto.
Qed.

Lemma JsMap_get_split {V : Type} (k : string) (v : V) (m : JsMap.t V) :
  NoDup (JsMap.keys m) ->
  JsMap.get k m = Some v ->
  exists before after,
    m = (before ++ (k, v) :: after)%list /\
    ~ In k (JsMap.keys before) /\ ~ In k (JsMap.keys after).
Proof.
  induction m as [|[k' v'] m IH]; simpl; [discriminate|].
  intros Hnd Hget. inversion Hnd as [|? ? Hnotin Hnd']; subst.
  destruct (k' =? k)%string eqn:E.
  - apply String.eqb_eq in E. subst k'. injection Hget as ->.
    exists [], m. simpl. auto.
  - destruct (IH Hnd' Hget) as [before [after [-> [Hb Ha]]]].
    exists ((k', v') :: before), after. simpl. repeat split.
    + apply String.eqb_neq in E. intros [H|H]; [congruence | auto].
    + assumption.
Qed.

Lemma countKey_split {V : Type} (k : string) (v : V)
    (before after : JsMap.t V) :
  ~ In k (JsMap.keys before) -> ~ In k (JsMap.keys after) ->
  countKey k (before ++ (k, v) :: after)%list = 1.
Proof.
  intros Hb Ha. unfold countKey, JsMap.keys in *.
  rewrite map_app, filter_app, length_app. simpl.
  rewrite String.eqb_refl. simpl.
  rewrite !filter_none; [reflexivity | |].
  - intros y Hy. apply String.eqb_neq. congruence.
  - intros y Hy. apply String.eqb_neq. congruence.
Qed.

Lemma renderInterfaces_split options (before after : JsMap.t InterfaceProperties)
    (entry : string * InterfaceProperties) :
  renderInterfaces options (before ++ entry :: after)%list =
  renderInterfaces options before
    ++ renderInterface options entry
    ++ renderInterfaces options after.
Proof.
  unfold renderInterfaces. rewrite map_app, concat_app. simpl List.map.
  rewrite concat_cons. reflexivity.
Qed.

Lemma walk_interfaces_NoDup options json rootName :
  NoDup (JsMap.keys (interfaces (walk options json rootName))).
Proof. rewrite walk_interface_names. apply JsSet_of_list_NoDup. Qed.

(** When the record of a property takes the name of the record of the
    root, the walk visits it last and the registry keeps the properties of
    the root. *)
Lemma last_visited_counterexample :
  ~ lastVisitedWins (mkOptions true false false true)
      nestedSameNameExample "RootObject".
Proof.
  intro H. destruct (H "RootObject") as [_ Hget].
  - vm_compute. auto.
  - vm_compute in Hget. discriminate Hget.
Qed.

(** C8, amended. When several object nodes take the same record name, the
    registration made last overwrites the others, where a node is
    registered once the walk of its entries is over: of two nodes side by
    side the later one is kept, of a node and a node nested in it the
    enclosing one. The registry holds one entry for the name, so the output
    holds one interface block for it, with the properties registered
    last. *)
Theorem last_registration_wins options json rootName name :
  In name (List.map fst (records options json rootName)) ->
  let regs := walk options json rootName in
  countKey name (interfaces regs) = 1 /\
  JsMap.get name (interfaces regs) =
    lastWrite name (records options json rootName) /\
  (exists before properties after,
      lastWrite name (records options json rootName) = Some properties /\
      interfaces regs = (before ++ (name, properties) :: after)%list /\
      ~ In name (JsMap.keys before) /\ ~ In name (JsMap.keys after) /\
      renderInterfaces options (interfaces regs) =
      renderInterfaces options before
        ++ renderInterface options (name, properties)
        ++ renderInterfaces options after) /\
  (forall entries,
      JsMap.get (sanitizeName rootName)
        (interfaces (walk options (JObject entries) rootName))
      = Some (propertiesOf options (sanitizeName rootName) entries)).
Proof.
  intros Hin regs. subst regs.
  destruct (lastWrite_In _ _ Hin) as [properties Hlast].
  assert (Hget : JsMap.get name (interfaces (walk options json rootName))
                 = lastWrite name (records options json rootName)).
  { rewrite walk_interfaces, JsMap_get_setAll, Hlast. reflexivity. }
  destruct (JsMap_get_split name properties _
              (walk_interfaces_NoDup options json rootName))
    as [before [after [Hsplit [Hb Ha]]]].
  { rewrite Hget. exact Hlast. }
  split; [rewrite Hsplit; apply countKey_split; assumption|].
  split; [exact Hget|].
  split.
  - exists before, properties, after.
    repeat split; try assumption.
    rewrite Hsplit. apply renderInterfaces_split.
  - intro entries. rewrite walk_interfaces, JsMap_get_setAll.
    cbn [records]. generalize (flat_map
      (fun e => records options (snd e)
                  (childName options (sanitizeName rootName) (fst e)))
      entries).
    intro nested. induction nested as [|[k v] nested IH]; simpl.
    + rewrite String.eqb_refl. reflexivity.
    + destruct (lastWrite (sanitizeName rootName)
                  (nested ++ [(sanitizeName rootName,
                               propertiesOf options (sanitizeName rootName)
                                 entries)])%list); [assumption | discriminate].
Qed.

(** Of the two records named [RootObjectA], the one of the property ["a"],
    registered last, is kept. *)
Lemma last_registration_wins_witness :
  JsMap.get "RootObjectA"
    (interfaces (walk (mkOptions true false false true)
                   siblingsExample "RootObject"))
  = Some [("y", "string")].
Proof.
  destruct (last_registration_wins (mkOptions true false false true)
              siblingsExample "RootObject" "RootObjectA") as [_ [H _]].
  - vm_compute. auto.
  - rewrite H. reflexivity.
Defined.

(** ** The relation and the function

    Every walk that the rules allow is the one the function computes. *)
Lemma Walk_function options :
  (forall value name regs type regs',
      Walk options value name regs type regs' ->
      generateTypeDefinition options value name regs = (type, regs')) /\
  (forall name items regs itemTypes regs',
      WalkItems options name items regs itemTypes regs' ->
      mapItems options name items regs = (itemTypes, regs')) /\
  (forall interfaceName entries properties regs properties' regs',
      WalkEntries options interfaceName entries properties regs
        properties' regs' ->
      forEntries options interfaceName entries properties regs =
      (properties', regs')).
Proof.
  apply Walk_mutind; try reflexivity.
  - intros items name regs Hne Hcond.
    rewrite generateTypeDefinition_array.
    destruct items; [congruence|]. rewrite Hcond. reflexivity.
  - intros items name regs itemTypes regs' Hne Hcond _ Hitems.
    rewrite generateTypeDefinition_array.
    destruct items; [congruence|]. rewrite Hcond, Hitems. reflexivity.
  - intros entries name regs properties regs' _ Hentries.
    rewrite generateTypeDefinition_object, Hentries. reflexivity.
  - intros name item rest regs t regs1 ts regs2 _ Hitem _ Hrest.
    rewrite mapItems_cons, Hitem, Hrest. reflexivity.
  - intros interfaceName key val rest properties regs propType regs1
      properties' regs2 _ Hval _ Hrest.
    rewrite forEntries_cons, Hval, Hrest. reflexivity.
Qed.

Lemma WalkItems_total options name items :
  Forall (fun v => forall name regs,
            Walk options v name regs
              (fst (generateTypeDefinition options v name regs))
              (snd (generateTypeDefinition options v name regs))) items ->
  forall regs,
    WalkItems options name items regs
      (fst (mapItems options name items regs))
      (snd (mapItems options name items regs)).
Proof.
  induction 1 as [|item rest Hitem _ IH]; intro regs.
  - constructor.
  - rewrite mapItems_cons.
    specialize (Hitem (name ++ "Item") regs).
    destruct (generateTypeDefinition options item (name ++ "Item") regs)
      as [t regs1].
    specialize (IH regs1).
    destruct (mapItems options name rest regs1) as [ts regs2].
    econstructor; eassumption.
Qed.

Lemma WalkEntries_total options interfaceName entries :
  Forall (fun e => forall name regs,
            Walk options (snd e) name regs
              (fst (generateTypeDefinition options (snd e) name regs))
              (snd (generateTypeDefinition options (snd e) name regs)))
         entries ->
  forall properties regs,
    WalkEntries options interfaceName entries properties regs
      (fst (forEntries options interfaceName entries properties regs))
      (snd (forEntries options interfaceName entries properties regs)).
Proof.
  induction 1 as [|[key val] rest Hval _ IH]; intros properties regs.
  - constructor.
  - rewrite forEntries_cons.
    specialize (Hval (childName options interfaceName key) regs).
    simpl in Hval.
    destruct (generateTypeDefinition options val
                (childName options interfaceName key) regs)
      as [propType regs1].
    econstructor; [eassumption | apply IH].
Qed.

(** On every value the rules allow a walk: the one the function computes.
    The recursion is on the value, whose items and entries are smaller. *)
Lemma Walk_total options value :
  forall name regs,
    Walk options value name regs
      (fst (generateTypeDefinition options value name regs))
      (snd (generateTypeDefinition options value name regs)).
Proof.
  induction value as [| b | x | s | items IH | entries IH]
    using JsonValue_nested_ind; intros name regs; try constructor.
  - rewrite generateTypeDefinition_array.
    destruct items as [|item rest]; [constructor|].
    destruct (detectEnums options && forallb isString (item :: rest)) eqn:E.
    + constructor; [discriminate | exact E].
    + pose proof (WalkItems_total options name (item :: rest) IH regs) as H.
      destruct (mapItems options name (item :: rest) regs) as [ts regs'].
      constructor; [discriminate | exact E | exact H].
  - rewrite generateTypeDefinition_object.
    pose proof (WalkEntries_total options (sanitizeName name) entries IH
                  JsObject.empty regs) as H.
    destruct (forEntries options (sanitizeName name) entries
                JsObject.empty regs) as [properties regs'].
    constructor. exact H.
Qed.

Lemma Converts_function options json rootName output :
  Converts options json rootName output <->
  output = convertJsonToTypeScript options json rootName.
Proof.
  unfold Converts, convertJsonToTypeScript, noRegistries, JsMap.empty. split.
  - intros [type [regs [Hwalk ->]]].
    apply (proj1 (Walk_function options)) in Hwalk.
    unfold noRegistries, JsMap.empty in Hwalk. rewrite Hwalk. reflexivity.
  - intros ->.
    pose proof (Walk_total options json rootName noRegistries) as H.
    unfold noRegistries, JsMap.empty in H.
    destruct (generateTypeDefinition options json rootName _) as [type regs].
    exists type, regs. auto.
Qed.

(** ** Totality and determinism *)

Lemma convert_empty_object options rootName :
  convertJsonToTypeScript options (JObject []) rootName =
  "interface " ++ sanitizeName rootName ++ " {" ++ nl ++ "}".
Proof.
  rewrite convert_walk.
  assert (H : renderRegistries options (walk options (JObject []) rootName) =
              String "i" (("nterface " ++ sanitizeName rootName ++ " {" ++ nl)
                            ++ "}" ++ nl ++ nl)).
  { unfold renderRegistries, renderEnums, renderInterfaces, walk.
    destruct (detectEnums options); cbn; rewrite !append_assoc;
      reflexivity. }
  rewrite H, trim_block by reflexivity.
  cbn [append]. rewrite !append_assoc. reflexivity.
Qed.

(** Apart from the stack, which the relation does not count, the walk has
    no rule that is an error: every value has a walk from the fresh
    registries and an output, the string that [convertJsonToTypeScript]
    computes. The empty array gives the empty string, the empty object an
    interface with no property. *)
Theorem conversion_total options rootName :
  (forall json,
      exists output,
        Converts options json rootName output /\
        convertJsonToTypeScript options json rootName = output) /\
  convertJsonToTypeScript options (JArray []) rootName = "" /\
  convertJsonToTypeScript options (JObject []) rootName =
    "interface " ++ sanitizeName rootName ++ " {" ++ nl ++ "}".
Proof.
  split; [|split].
  - intro json. exists (convertJsonToTypeScript options json rootName).
    split; [apply Converts_function|]; reflexivity.
  - rewrite convert_walk. unfold walk. simpl.
    rewrite renderRegistries_none. reflexivity.
  - apply convert_empty_object.
Qed.

(** C4. Two conversions of the same value, with the same root name and the
    same configuration, give the same string. *)
Theorem conversion_deterministic options json rootName output1 output2 :
  Converts options json rootName output1 ->
  Converts options json rootName output2 ->
  output1 = output2.
Proof.
  intros H1 H2. apply Converts_function in H1, H2. congruence.
Qed.

(** Two conversions of [{"roles": ["admin","user","admin"]}] with enum
    detection off: the one that the function computes and one derived rule
    by rule. *)
Lemma conversion_deterministic_witness :
  convertJsonToTypeScript (mkOptions false false false true)
    rolesExample "RootObject" =
  "interface RootObject {" ++ nl ++ "  roles: string[];" ++ nl ++ "}".
Proof.
  apply (conversion_deterministic (mkOptions false false false true)
           rolesExample "RootObject").
  - apply Converts_function. reflexivity.
  - eexists. eexists. split.
    + apply Walk_object. eapply WalkEntries_cons.
      * apply Walk_array; [discriminate | reflexivity |].
        repeat (eapply WalkItems_cons; [apply Walk_string|]).
        apply WalkItems_nil.
      * apply WalkEntries_nil.
    + vm_compute. reflexivity.
Defined.

(** * Further properties of the code *)

(** ** Names *)

Lemma Str_filter_app (p : ascii -> bool) (s1 s2 : string) :
  Str.filter p (s1 ++ s2) = Str.filter p s1 ++ Str.filter p s2.
Proof.
  induction s1 as [|c s1 IH]; simpl; [reflexivity|].
  destruct (p c); simpl; rewrite IH; reflexivity.
Qed.

Lemma Str_filter_forallb (p : ascii -> bool) (s : string) :
  Str.forallb p (Str.filter p s) = true.
Proof.
  induction s as [|c s IH]; simpl; [reflexivity|].
  destruct (p c) eqn:E; simpl; [rewrite E|]; assumption.
Qed.

Lemma Str_filter_fixed (p : ascii -> bool) (s : string) :
  Str.forallb p s = true -> Str.filter p s = s.
Proof.
  induction s as [|c s IH]; simpl; [reflexivity|].
  intro H. apply andb_prop in H. destruct H as [Hc Hs].
  rewrite Hc, (IH Hs). reflexivity.
Qed.

Lemma sanitizeName_idempotent (name : string) :
  sanitizeName (sanitizeName name) = sanitizeName name.
Proof. apply Str_filter_fixed, Str_filter_forallb. Qed.

Lemma startsWith_refl (s : string) : startsWith s s.
Proof. exists "". symmetry. apply append_nil_r. Qed.

Lemma startsWith_app (s t u : string) :
  startsWith (s ++ t) u -> startsWith s u.
Proof. intros [rest ->]. exists (t ++ rest). apply append_assoc. Qed.

(** The names of the records that the walk of a value writes. *)
Lemma records_names options value :
  forall name k properties,
    In (k, properties) (records options value name) ->
    startsWith (sanitizeName name) k /\ Str.forallb isWordChar k = true.
Proof.
  induction value as [| b | x | s | items IH | entries IH]
    using JsonValue_nested_ind; intros name k properties Hin;
    try (destruct Hin).
  - destruct items as [|item rest]; [destruct Hin|].
    cbn [records] in Hin.
    destruct (detectEnums options && forallb isString (item :: rest));
      [destruct Hin|].
    apply in_flat_map in Hin. destruct Hin as [x [Hx Hin]].
    rewrite Forall_forall in IH.
    destruct (IH x Hx _ _ _ Hin) as [Hstart Hword].
    split; [|assumption].
    unfold sanitizeName in Hstart. rewrite Str_filter_app in Hstart.
    apply startsWith_app in Hstart. exact Hstart.
  - cbn [records] in Hin. apply in_app_or in Hin. destruct Hin as [Hin|Hin].
    + apply in_flat_map in Hin. destruct Hin as [e [He Hin]].
      rewrite Forall_forall in IH.
      destruct (IH e He _ _ _ Hin) as [Hstart Hword].
      split; [|assumption].
      unfold childName, sanitizeName in Hstart.
      rewrite Str_filter_app in Hstart. apply startsWith_app in Hstart.
      fold (sanitizeName name) in Hstart.
      fold (sanitizeName (sanitizeName name)) in Hstart.
      rewrite sanitizeName_idempotent in Hstart. exact Hstart.
    + destruct Hin as [Hin|[]]. injection Hin as <- _.
      split; [apply startsWith_refl | apply Str_filter_forallb].
Qed.

(** X1. Every interface that a conversion registers has a name made of
    letters, digits and underscores only, which starts with the sanitized
    root name. *)
Theorem interface_names_sanitized options json rootName name :
  In name (JsMap.keys (interfaces (walk options json rootName))) ->
  Str.forallb isWordChar name = true /\
  startsWith (sanitizeName rootName) name.
Proof.
  rewrite walk_interface_names, JsSet_of_list_In, in_map_iff.
  intros [[k properties] [<- Hin]]. simpl.
  destruct (records_names options json rootName k properties Hin).
  split; assumption.
Qed.

Lemma interface_names_sanitized_witness :
  Str.forallb isWordChar "RootObjectAddress" = true /\
  startsWith (sanitizeName "Root Object!") "RootObjectAddress".
Proof.
  apply (interface_names_sanitized (mkOptions true false false true)
           nestedExample "Root Object!").
  vm_compute. auto.
Defined.

(** ** The properties of an interface *)

Lemma replace_absent (k v : string) (o : JsObject.t) :
  ~ In k (List.map fst o) -> JsObject.replace k v o = None.
Proof.
  induction o as [|[k' v'] o IH]; simpl; intro H; [reflexivity|].
  destruct (k' =? k)%string eqn:E.
  - apply String.eqb_eq in E. tauto.
  - rewrite IH by tauto. reflexivity.
Qed.

Lemma insertIndex_last (n : N) (k v : string) (o : JsObject.t) :
  Forall (fun e => exists n', JsObject.arrayIndex (fst e) = Some n' /\
                              (n' < n)%N) o ->
  JsObject.insertIndex n k v o = (o ++ [(k, v)])%list.
Proof.
  induction 1 as [|[k' v'] o [n' [Hidx Hlt]] _ IH]; simpl; [reflexivity|].
  simpl in Hidx. rewrite Hidx.
  apply N.ltb_lt in Hlt. rewrite Hlt, IH. reflexivity.
Qed.

Lemma set_new_string (k v : string) (o : JsObject.t) :
  k <> "__proto__" -> ~ In k (List.map fst o) ->
  JsObject.arrayIndex k = None ->
  JsObject.set k v o = (o ++ [(k, v)])%list.
Proof.
  intros Hk Hin Hidx. unfold JsObject.set.
  apply String.eqb_neq in Hk. rewrite Hk, replace_absent, Hidx by assumption.
  reflexivity.
Qed.

Lemma set_new_index (n : N) (k v : string) (o : JsObject.t) :
  JsObject.arrayIndex k = Some n -> ~ In k (List.map fst o) ->
  Forall (fun e => exists n', JsObject.arrayIndex (fst e) = Some n' /\
                              (n' < n)%N) o ->
  JsObject.set k v o = (o ++ [(k, v)])%list.
Proof.
  intros Hidx Hin Hlt. unfold JsObject.set.
  destruct (k =? "__proto__")%string eqn:Hk.
  - apply String.eqb_eq in Hk. subst k. discriminate Hidx.
  - rewrite replace_absent, Hidx by assumption.
    apply insertIndex_last, Hlt.
Qed.

Section Property_order.

Variable T : string * JsonValue -> string.

Let notProto (e : string * JsonValue) : bool :=
  negb (fst e =? "__proto__")%string.

Let assign (properties : JsObject.t) (e : string * JsonValue) : JsObject.t :=
  JsObject.set (fst e) (T e) properties.

Lemma assign_strings entries :
  forall acc,
    List.forallb (fun k => negb (isIndexKey k)) (List.map fst entries) = true ->
    NoDup (List.map fst acc ++ List.map fst entries)%list ->
    fold_left assign entries acc =
    (acc ++ List.map (fun e => (fst e, T e)) (List.filter notProto entries))%list.
Proof.
  induction entries as [|[k val] entries IH]; intros acc Hstr Hnd.
  - simpl. symmetry. apply app_nil_r.
  - simpl in Hstr. apply andb_prop in Hstr. destruct Hstr as [Hk Hrest].
    cbn [fold_left List.filter]. unfold notProto at 1, assign at 2.
    cbn [fst]. simpl in Hnd.
    destruct (k =? "__proto__")%string eqn:Hproto; cbn [negb].
    + unfold JsObject.set. rewrite Hproto.
      apply IH; [assumption|]. apply NoDup_remove_1 in Hnd. exact Hnd.
    + rewrite set_new_string.
      * rewrite IH; [|assumption|].
        -- rewrite <- app_assoc. reflexivity.
        -- rewrite map_app, <- app_assoc. exact Hnd.
      * apply String.eqb_neq, Hproto.
      * apply NoDup_remove_2 in Hnd. rewrite in_app_iff in Hnd. tauto.
      * unfold isIndexKey in Hk.
        destruct (JsObject.arrayIndex k); [discriminate | reflexivity].
Qed.

Lemma assign_ordered entries :
  forall last acc,
    inKeyOrderFrom last (List.map fst entries) = true ->
    NoDup (List.map fst acc ++ List.map fst entries)%list ->
    Forall (fun e => exists n', JsObject.arrayIndex (fst e) = Some n' /\
                                match last with
                                | Some m => (n' <= m)%N
                                | None => False
                                end) acc ->
    fold_left assign entries acc =
    (acc ++ List.map (fun e => (fst e, T e)) (List.filter notProto entries))%list.
Proof.
  induction entries as [|[k val] entries IH]; intros last acc Hord Hnd Hacc.
  - simpl. symmetry. apply app_nil_r.
  - cbn [List.map fst inKeyOrderFrom] in Hord.
    destruct (JsObject.arrayIndex k) as [n|] eqn:Hidx.
    + apply andb_prop in Hord. destruct Hord as [Hlast Hrest].
      cbn [fold_left List.filter]. unfold notProto at 1, assign at 2.
      cbn [fst]. simpl in Hnd.
      assert (Hproto : (k =? "__proto__")%string = false).
      { apply String.eqb_neq. intros ->. discriminate Hidx. }
      rewrite Hproto. cbn [negb].
      assert (Hbelow : Forall (fun e => exists n',
                          JsObject.arrayIndex (fst e) = Some n' /\ (n' < n)%N)
                         acc).
      { eapply Forall_impl; [|exact Hacc].
        intros e [n' [He Hle]]. exists n'. split; [assumption|].
        destruct last as [m|]; [|destruct Hle].
        apply N.ltb_lt in Hlast. eapply N.le_lt_trans; eassumption. }
      rewrite (set_new_index n); [|assumption| |assumption].
      * rewrite (IH (Some n)).
        -- rewrite <- app_assoc. reflexivity.
        -- assumption.
        -- rewrite map_app, <- app_assoc. exact Hnd.
        -- apply Forall_app. split.
           ++ eapply Forall_impl; [|exact Hbelow].
              intros e [n' [He Hlt]]. exists n'. split; [assumption|].
              apply N.lt_le_incl, Hlt.
           ++ constructor; [|constructor]. exists n. split; [assumption|].
              apply N.le_refl.
      * apply NoDup_remove_2 in Hnd. rewrite in_app_iff in Hnd. tauto.
    + apply assign_strings; [|assumption].
      cbn [List.map fst List.forallb]. unfold isIndexKey at 1.
      rewrite Hidx, Hord. reflexivity.
Qed.

End Property_order.

(** X2. When the keys of an object are pairwise distinct and in the order
    in which the runtime lists own properties, the interface registered
    for the object has one property for each key but [__proto__], in the
    order of the object, with the type expression of the value. *)
Theorem properties_in_object_order options entries name regs :
  inKeyOrder (List.map fst entries) = true ->
  NoDup (List.map fst entries) ->
  JsMap.get (sanitizeName name)
    (interfaces (snd (generateTypeDefinition options (JObject entries)
                        name regs)))
  = Some (List.map
            (fun e => (fst e,
                       typeOf options (snd e)
                         (childName options (sanitizeName name) (fst e))))
            (List.filter (fun e => negb (fst e =? "__proto__")%string)
               entries)).
Proof.
  intros Hord Hnd. rewrite registries_after_walk. unfold written.
  cbn [interfaces records]. rewrite setAll_app.
  unfold setAll at 1. cbn [fold_left fst snd].
  rewrite JsMap_get_set, String.eqb_refl. f_equal.
  unfold propertiesOf.
  rewrite (assign_ordered
             (fun e => typeOf options (snd e)
                         (childName options (sanitizeName name) (fst e)))
             entries None JsObject.empty); try assumption.
  - reflexivity.
  - constructor.
Qed.

Lemma properties_in_object_order_witness :
  JsMap.get "RootObject"
    (interfaces (snd (generateTypeDefinition (mkOptions true false false true)
                        (JObject [("7", JBool true); ("10", JNull);
                                  ("b", JString "s"); ("__proto__", JNull);
                                  ("a", JNumber one)])
                        "RootObject" noRegistries)))
  = Some [("7", "boolean"); ("10", "null"); ("b", "string"); ("a", "number")].
Proof.
  apply (properties_in_object_order (mkOptions true false false true)
           [("7", JBool true); ("10", JNull); ("b", JString "s");
            ("__proto__", JNull); ("a", JNumber one)]
           "RootObject" noRegistries).
  - reflexivity.
  - repeat constructor; simpl; intuition discriminate.
Defined.

(** ** What the walk does to the registries *)

Lemma lastWrite_absent {V : Type} (k : string) (ws : list (string * V)) :
  ~ In k (List.map fst ws) -> lastWrite k ws = None.
Proof.
  induction ws as [|[k' v] ws IH]; simpl; intro H; [reflexivity|].
  rewrite IH by tauto.
  destruct (k' =? k)%string eqn:E; [|reflexivity].
  apply String.eqb_eq in E. tauto.
Qed.

Lemma setAll_keys_extend {V : Type} (ws : list (string * V)) (m : JsMap.t V) :
  exists added,
    JsMap.keys (setAll ws m) = (JsMap.keys m ++ added)%list.
Proof.
  rewrite JsMap_keys_setAll, JsSet_addAll_distinct. eauto.
Qed.

Lemma setAll_keys_NoDup {V : Type} (ws : list (string * V)) (m : JsMap.t V) :
  NoDup (JsMap.keys m) -> NoDup (JsMap.keys (setAll ws m)).
Proof. rewrite JsMap_keys_setAll. apply JsSet_addAll_NoDup. Qed.

Lemma setAll_keys_written {V : Type} (k : string) (ws : list (string * V))
    (m : JsMap.t V) :
  In k (List.map fst ws) -> In k (JsMap.keys (setAll ws m)).
Proof. rewrite JsMap_keys_setAll, JsSet_addAll_In. auto. Qed.

Lemma enums_names options value :
  forall name k values,
    In (k, values) (enums options value name) ->
    detectEnums options = true /\ values <> [] /\ NoDup values.
Proof.
  induction value as [| b | x | s | items IH | entries IH]
    using JsonValue_nested_ind; intros name k values Hin;
    try (destruct Hin).
  - destruct items as [|item rest]; [destruct Hin|].
    cbn [enums] in Hin.
    destruct (detectEnums options && forallb isString (item :: rest)) eqn:E.
    + destruct Hin as [Hin|[]]. injection Hin as _ <-.
      apply andb_prop in E. destruct E as [Hd Hs].
      split; [assumption|]. split; [|apply JsSet_of_list_NoDup].
      destruct item; try discriminate Hs.
      cbn [stringItems]. intro Hnil.
      assert (Hmem : In s (JsSet.of_list (s :: stringItems rest)))
        by (apply JsSet_of_list_In; left; reflexivity).
      rewrite Hnil in Hmem. destruct Hmem.
    + apply in_flat_map in Hin. destruct Hin as [x [Hx Hin]].
      rewrite Forall_forall in IH. exact (IH x Hx _ _ _ Hin).
  - cbn [enums] in Hin. apply in_flat_map in Hin.
    destruct Hin as [e [He Hin]].
    rewrite Forall_forall in IH. exact (IH e He _ _ _ Hin).
Qed.

Lemma typeOf_object options entries name :
  typeOf options (JObject entries) name = sanitizeName name.
Proof.
  unfold typeOf. rewrite generateTypeDefinition_object.
  destruct (forEntries _ _ _ _ _). reflexivity.
Qed.

(** X3. Whatever the registries it is given, the walk of a value keeps
    every name that is registered, in its place, and adds names after
    them; it keeps the names pairwise distinct; and it leaves as it is the
    interface of every name that does not start with the sanitized name
    of the value. *)
Theorem walk_extends_registries options value name regs :
  let regs' := snd (generateTypeDefinition options value name regs) in
  (exists added,
      JsMap.keys (interfaces regs') =
      (JsMap.keys (interfaces regs) ++ added)%list) /\
  (exists added,
      JsMap.keys (enumTypes regs') =
      (JsMap.keys (enumTypes regs) ++ added)%list) /\
  (NoDup (JsMap.keys (interfaces regs)) ->
   NoDup (JsMap.keys (interfaces regs'))) /\
  (NoDup (JsMap.keys (enumTypes regs)) ->
   NoDup (JsMap.keys (enumTypes regs'))) /\
  (forall k,
      ~ startsWith (sanitizeName name) k ->
      JsMap.get k (interfaces regs') = JsMap.get k (interfaces regs)).
Proof.
  intro regs'. subst regs'. rewrite registries_after_walk. unfold written.
  cbn [interfaces enumTypes].
  split; [apply setAll_keys_extend|].
  split; [apply setAll_keys_extend|].
  split; [apply setAll_keys_NoDup|].
  split; [apply setAll_keys_NoDup|].
  intros k Hk. rewrite JsMap_get_setAll, lastWrite_absent; [reflexivity|].
  intro Hin. apply in_map_iff in Hin. destruct Hin as [[k' p] [<- Hin]].
  apply Hk. exact (proj1 (records_names options value name k' p Hin)).
Qed.

(** X5. The type expression that the walk returns for a value depends on
    the value, the name and the options, not on the registries. *)
Theorem type_independent_of_registries options value name regs1 regs2 :
  fst (generateTypeDefinition options value name regs1) =
  fst (generateTypeDefinition options value name regs2).
Proof. rewrite !typeOf_any_registries. reflexivity. Qed.

(** X6. Every enum that a conversion registers has at least one member and
    no member twice, and is registered only with [detectEnums] on. *)
Theorem registered_enums_well_formed options json rootName enumName values :
  In (enumName, values) (enumTypes (walk options json rootName)) ->
  detectEnums options = true /\ values <> [] /\ NoDup values.
Proof.
  rewrite walk_enumTypes. intro Hin.
  assert (Hget : JsMap.get enumName
                   (setAll (enums options json rootName) JsMap.empty)
                 = Some values).
  { assert (Hnd : NoDup (JsMap.keys
                    (setAll (enums options json rootName) JsMap.empty)))
      by (apply setAll_keys_NoDup; constructor).
    revert Hnd Hin.
    generalize (setAll (enums options json rootName) JsMap.empty).
    intro m. induction m as [|[k v] m IH]; simpl; intros Hnd Hin;
      [destruct Hin|].
    inversion Hnd as [|? ? Hnotin Hnd']; subst.
    destruct Hin as [Heq|Hin].
    - injection Heq as -> ->. rewrite String.eqb_refl. reflexivity.
    - destruct (k =? enumName)%string eqn:E; [|auto].
      apply String.eqb_eq in E. subst k. exfalso. apply Hnotin.
      apply in_map_iff. exists (enumName, values). auto. }
  rewrite JsMap_get_setAll in Hget.
  destruct (lastWrite enumName (enums options json rootName)) as [w|] eqn:Hlast;
    [|discriminate Hget].
  injection Hget as ->.
  assert (Hev : In (enumName, values) (enums options json rootName)).
  { revert Hlast. generalize (enums options json rootName).
    intro ws. induction ws as [|[k v] ws IH]; simpl; [discriminate|].
    destruct (lastWrite enumName ws) as [w|].
    - intro H. injection H as ->. right. apply IH. reflexivity.
    - destruct (k =? enumName)%string eqn:E; [|discriminate].
      intro H. injection H as ->. apply String.eqb_eq in E. subst k.
      left. reflexivity. }
  exact (enums_names options json rootName enumName values Hev).
Qed.

Lemma registered_enums_well_formed_witness :
  detectEnums (mkOptions true false false true) = true /\
  ["admin"; "user"] <> [] /\ NoDup ["admin"; "user"].
Proof.
  apply (registered_enums_well_formed (mkOptions true false false true)
           rolesExample "RootObject" "RootObjectRolesEnum").
  vm_compute. auto.
Defined.

(** ** The shape of the output *)

Lemma trim_closing (start body : string) :
  Str.trimStart start = start -> start <> "" ->
  Str.trim (start ++ body ++ "}" ++ nl ++ nl) = start ++ body ++ "}".
Proof.
  intros Hstart Hne. destruct start as [|c start]; [congruence|].
  assert (Hc : isSpace c = false).
  { destruct (isSpace c) eqn:Hc; [|reflexivity]. exfalso.
    simpl in Hstart. rewrite Hc in Hstart.
    assert (Hlen : String.length (Str.trimStart start)
                   <= String.length start).
    { clear. induction start as [|a s IH]; simpl; [auto|].
      destruct (isSpace a); simpl; auto. }
    rewrite Hstart in Hlen. simpl in Hlen.
    apply (Nat.nle_succ_diag_l _ Hlen). }
  unfold Str.trim.
  replace (Str.trimStart (String c start ++ body ++ "}" ++ nl ++ nl))
    with (String c start ++ body ++ "}" ++ nl ++ nl)
    by (simpl; rewrite Hc; reflexivity).
  rewrite <- append_assoc, trimEnd_closing, append_assoc. reflexivity.
Qed.

Lemma block_then_blocks (start body : string) (more : list string) :
  Forall isBlock more ->
  exists body',
    (start ++ body ++ "}" ++ nl ++ nl) ++ String.concat "" more =
    start ++ body' ++ "}" ++ nl ++ nl.
Proof.
  intro H. destruct more as [|x more].
  - exists body. apply append_nil_r.
  - destruct (isBlock_concat x more H) as [c [b [-> _]]].
    exists (body ++ "}" ++ nl ++ nl ++ String c b).
    rewrite !append_assoc. reflexivity.
Qed.

Lemma renderEnum_start entry :
  exists body, renderEnum entry = "enum " ++ body ++ "}" ++ nl ++ nl.
Proof.
  destruct entry as [enumName enumValues].
  exists (enumName ++ " {" ++ nl
            ++ renderEnumValues (List.length enumValues) 0 enumValues).
  unfold renderEnum. rewrite !append_assoc. reflexivity.
Qed.

Lemma renderInterface_start options entry :
  exists body,
    renderInterface options entry = "interface " ++ body ++ "}" ++ nl ++ nl.
Proof.
  destruct entry as [name properties].
  exists (name ++ " {" ++ nl
            ++ String.concat "" (List.map (renderProperty options)
                                   (JsObject.entries properties))).
  unfold renderInterface. rewrite !append_assoc. reflexivity.
Qed.

Lemma renderRegistries_shape options regs :
  (detectEnums options = false \/ enumTypes regs = []) /\ interfaces regs = [] \/
  exists body,
    renderRegistries options regs = "enum " ++ body ++ "}" ++ nl ++ nl \/
    renderRegistries options regs = "interface " ++ body ++ "}" ++ nl ++ nl.
Proof.
  unfold renderRegistries, renderEnums, renderInterfaces.
  assert (Hifaces : Forall isBlock
                      (List.map (renderInterface options) (interfaces regs))).
  { apply Forall_forall. intros b Hb. apply in_map_iff in Hb.
    destruct Hb as [e [<- _]]. apply renderInterface_block. }
  destruct (detectEnums options) eqn:Hd;
    [destruct (enumTypes regs) as [|e enums] eqn:He|].
  - destruct (interfaces regs) as [|i ifaces]; [left; auto|].
    right. cbn [List.map] in *. rewrite concat_cons.
    destruct (renderInterface_start options i) as [body ->].
    inversion Hifaces; subst.
    destruct (block_then_blocks "interface " body
                (List.map (renderInterface options) ifaces)) as [body' H];
      [assumption|].
    exists body'. right. exact H.
  - right. cbn [List.map]. rewrite concat_cons.
    destruct (renderEnum_start e) as [body ->].
    rewrite append_assoc, <- concat_app.
    destruct (block_then_blocks "enum " body
                (List.map renderEnum enums
                   ++ List.map (renderInterface options) (interfaces regs)))
      as [body' H].
    + apply Forall_app. split; [|assumption].
      apply Forall_forall. intros b Hb. apply in_map_iff in Hb.
      destruct Hb as [x [<- _]]. apply renderEnum_block.
    + exists body'. left. exact H.
  - destruct (interfaces regs) as [|i ifaces]; [left; auto|].
    right. cbn [List.map] in *. rewrite concat_cons.
    destruct (renderInterface_start options i) as [body ->].
    inversion Hifaces; subst.
    destruct (block_then_blocks "interface " body
                (List.map (renderInterface options) ifaces)) as [body' H];
      [assumption|].
    exists body'. right. exact H.
Qed.

(** X8. The output of a conversion is empty exactly when the walk has
    registered nothing; otherwise it starts with [enum ] or [interface ]
    and ends with a closing brace, with no white space before or after. *)
Theorem output_shape options json rootName :
  let output := convertJsonToTypeScript options json rootName in
  (output = "" <-> walk options json rootName = noRegistries) /\
  (output = "" \/
   exists body,
     output = "enum " ++ body ++ "}" \/ output = "interface " ++ body ++ "}").
Proof.
  intro output. subst output. rewrite convert_walk.
  destruct (renderRegistries_shape options (walk options json rootName))
    as [[Henums Hifaces]|[body Hshape]].
  - assert (Hnone : walk options json rootName = noRegistries).
    { destruct Henums as [Hd|He].
      - pose proof (walk_without_detection options json rootName Hd) as He.
        destruct (walk options json rootName). simpl in *. subst.
        reflexivity.
      - destruct (walk options json rootName). simpl in *. subst.
        reflexivity. }
    rewrite Hnone, renderRegistries_none. split; [tauto | left; reflexivity].
  - assert (Hout : Str.trim (renderRegistries options
                               (walk options json rootName))
                   = "enum " ++ body ++ "}" \/
                   Str.trim (renderRegistries options
                               (walk options json rootName))
                   = "interface " ++ body ++ "}").
    { destruct Hshape as [-> | ->]; [left | right];
        apply trim_closing; (reflexivity || discriminate). }
    split; [|right; exists body; exact Hout].
    split.
    + intro Hempty. destruct Hout as [H|H]; rewrite Hempty in H;
        discriminate H.
    + intro Hnone. rewrite Hnone, renderRegistries_none in Hshape.
      destruct Hshape as [H|H]; discriminate H.
Qed.

(** ** The block of an enum *)

Lemma renderEnumValues_cons (length index : nat) (value : string)
    (rest : list string) :
  renderEnumValues length index (value :: rest) =
  "  " ++ enumKey value ++ " = " ++ dq ++ value ++ dq
    ++ (if (index <? length - 1)%nat then "," else "") ++ nl
    ++ renderEnumValues length (S index) rest.
Proof. reflexivity. Qed.

Lemma renderEnumValues_separated (values : list string) :
  values <> [] ->
  forall index,
    renderEnumValues (index + List.length values) index values =
    String.concat ("," ++ nl) (List.map enumMember values) ++ nl.
Proof.
  induction values as [|value rest IH]; [congruence|]. intros _ index.
  rewrite renderEnumValues_cons.
  destruct rest as [|value' rest].
  - replace (index <? index + List.length [value] - 1)%nat with false
      by (symmetry; apply Nat.ltb_ge; simpl; lia).
    cbn [renderEnumValues List.map String.concat].
    unfold enumMember. rewrite !append_assoc. reflexivity.
  - replace (index <? index + List.length (value :: value' :: rest) - 1)%nat
      with true by (symmetry; apply Nat.ltb_lt; simpl; lia).
    replace (index + List.length (value :: value' :: rest))
      with (S index + List.length (value' :: rest))
      by (simpl; lia).
    rewrite IH by discriminate.
    change (List.map enumMember (value :: value' :: rest))
      with (enumMember value :: List.map enumMember (value' :: rest)).
    change (String.concat ("," ++ nl)
              (enumMember value :: List.map enumMember (value' :: rest)))
      with (enumMember value ++ ("," ++ nl)
              ++ String.concat ("," ++ nl)
                   (List.map enumMember (value' :: rest))).
    unfold enumMember at 2. rewrite !append_assoc. reflexivity.
Qed.

(** X9. The block of an enum with at least one member lists the members
    one on a line, [key = "value"], with a comma between two members and
    none after the last. *)
Theorem enum_block_members enumName values :
  values <> [] ->
  renderEnum (enumName, values) =
  "enum " ++ enumName ++ " {" ++ nl
    ++ String.concat ("," ++ nl) (List.map enumMember values) ++ nl
    ++ "}" ++ nl ++ nl.
Proof.
  intro Hne. unfold renderEnum.
  pose proof (renderEnumValues_separated values Hne 0) as H.
  cbn [Nat.add] in H. rewrite H.
  rewrite !append_assoc. reflexivity.
Qed.

Lemma enum_block_members_witness :
  renderEnum ("Roles", ["admin"; "user"]) =
  "enum Roles {" ++ nl
    ++ "  admin = " ++ dq ++ "admin" ++ dq ++ "," ++ nl
    ++ "  user = " ++ dq ++ "user" ++ dq ++ nl
    ++ "}" ++ nl ++ nl.
Proof.
  rewrite (enum_block_members "Roles" ["admin"; "user"]) by discriminate.
  reflexivity.
Defined.

Lemma isWordChar_replaced (c : ascii) :
  isWordChar (if isWordChar c then c else "_"%char) = true.
Proof. destruct (isWordChar c) eqn:E; [assumption | reflexivity]. Qed.

Lemma word_is_identPart (s : string) :
  Str.forallb isWordChar s = true -> Str.forallb isIdentPart s = true.
Proof.
  induction s as [|c s IH]; simpl; [reflexivity|].
  intro H. apply andb_prop in H. destruct H as [Hc Hs].
  rewrite (IH Hs). unfold isIdentPart. rewrite Hc. reflexivity.
Qed.

(** X10. The key of an enum member made from a value that is not empty is
    a bare identifier: letters, digits and underscores, and no digit
    first. *)
Theorem enumKey_identifier value :
  value <> "" ->
  Str.forallb isWordChar (enumKey value) = true /\
  isBareIdentifier (enumKey value) = true.
Proof.
  intro Hne. unfold enumKey.
  set (replaced := Str.map (fun c => if isWordChar c then c else "_"%char)
                     value).
  assert (Hword : Str.forallb isWordChar replaced = true).
  { unfold replaced. clear. induction value as [|c s IH]; simpl;
      [reflexivity|]. rewrite isWordChar_replaced. exact IH. }
  assert (Hcons : exists c rest, replaced = String c rest).
  { unfold replaced. destruct value; [congruence|]. simpl. eauto. }
  destruct Hcons as [c [rest Hrep]]. rewrite Hrep in *.
  simpl in Hword. apply andb_prop in Hword. destruct Hword as [Hc Hrest].
  destruct (isDigit c) eqn:Hd.
  - split.
    + simpl. rewrite Hc, Hrest. reflexivity.
    + simpl. unfold isIdentPart at 1. rewrite Hc.
      rewrite (word_is_identPart rest Hrest). reflexivity.
  - split.
    + simpl. rewrite Hc, Hrest. reflexivity.
    + simpl. rewrite (word_is_identPart rest Hrest).
      unfold isWordChar in Hc. rewrite Hd in Hc. unfold isIdentStart.
      destruct (isLower c), (isUpper c), (c =? "_")%char;
        try reflexivity; discriminate Hc.
Qed.

Lemma enumKey_identifier_witness :
  Str.forallb isWordChar (enumKey "2nd place") = true /\
  isBareIdentifier (enumKey "2nd place") = true.
Proof. apply (enumKey_identifier "2nd place"). discriminate. Defined.

(** ** camelCase *)

Lemma toUpperCase_lower (l : ascii) :
  isLower l = true ->
  isLower (toUpperCase l) = false /\ (toUpperCase l =? "_")%char = false.
Proof.
  destruct l as [[] [] [] [] [] [] [] []]; vm_compute; intro H;
    try discriminate H; split; reflexivity.
Qed.

Lemma toCamelCase_two (c l : ascii) (r : string) :
  toCamelCase (String c (String l r)) =
  if (c =? "_")%char && isLower l
  then String (toUpperCase l) (toCamelCase r)
  else String c (toCamelCase (String l r)).
Proof. reflexivity. Qed.

Lemma toCamelCase_other (c : ascii) (s : string) :
  (c =? "_")%char = false ->
  toCamelCase (String c s) = String c (toCamelCase s).
Proof.
  intro H. destruct s as [|l r]; [reflexivity|].
  rewrite toCamelCase_two, H. reflexivity.
Qed.

Lemma toCamelCase_head (l : ascii) (r : string) :
  exists h t,
    toCamelCase (String l r) = String h t /\
    (h = l \/ isLower h = false).
Proof.
  destruct r as [|l' r'].
  - exists l, "". auto.
  - rewrite toCamelCase_two.
    destruct ((l =? "_")%char && isLower l') eqn:E.
    + apply andb_prop in E. destruct E as [_ Hl'].
      exists (toUpperCase l'), (toCamelCase r'). split; [reflexivity|].
      right. exact (proj1 (toUpperCase_lower l' Hl')).
    + exists l, (toCamelCase (String l' r')). auto.
Qed.

Lemma toCamelCase_idempotent_upto (n : nat) :
  forall s, String.length s <= n ->
            toCamelCase (toCamelCase s) = toCamelCase s.
Proof.
  induction n as [|n IH]; intros s Hlen.
  - destruct s; [reflexivity | simpl in Hlen; lia].
  - destruct s as [|c [|l r]]; try reflexivity.
    rewrite toCamelCase_two.
    destruct ((c =? "_")%char && isLower l) eqn:E.
    + apply andb_prop in E. destruct E as [_ Hl].
      rewrite toCamelCase_other
        by exact (proj2 (toUpperCase_lower l Hl)).
      rewrite IH by (simpl in Hlen; lia). reflexivity.
    + assert (Hrec : toCamelCase (toCamelCase (String l r))
                     = toCamelCase (String l r))
        by (apply IH; simpl in *; lia).
      destruct (toCamelCase_head l r) as [h [t [Hht Hh]]].
      destruct (c =? "_")%char eqn:Hc.
      * simpl in E. rewrite Hht in *. rewrite toCamelCase_two, Hc.
        replace (isLower h) with false
          by (destruct Hh as [->|Hh]; congruence).
        cbn [andb]. rewrite Hrec. reflexivity.
      * rewrite toCamelCase_other by assumption. rewrite Hrec. reflexivity.
Qed.

(** X11. Converting a key to camelCase twice gives what converting it
    once gives: no underscore of the result is followed by a lower-case
    letter. *)
Theorem toCamelCase_idempotent (str : string) :
  toCamelCase (toCamelCase str) = toCamelCase str.
Proof. apply (toCamelCase_idempotent_upto (String.length str)). lia. Qed.

(** ** The flags *)

Section Flags.

Variables options options' : ConversionOptions.
Hypothesis HdetectEnums : detectEnums options = detectEnums options'.
Hypothesis HcamelCase : camelCase options = camelCase options'.

Let sameStrict : Prop := strictNullChecks options = strictNullChecks options'.

Lemma mapItems_flags name items :
  Forall (fun v => (hasNull v = true -> sameStrict) ->
                   forall name regs,
                     generateTypeDefinition options v name regs =
                     generateTypeDefinition options' v name regs) items ->
  (List.existsb hasNull items = true -> sameStrict) ->
  forall regs,
    mapItems options name items regs = mapItems options' name items regs.
Proof.
  induction 1 as [|item rest Hitem _ IH]; intros Hnull regs;
    [reflexivity|].
  rewrite !mapItems_cons. simpl in Hnull.
  rewrite Hitem by (intro H; apply Hnull; rewrite H; reflexivity).
  destruct (generateTypeDefinition options' item (name ++ "Item") regs)
    as [t regs1].
  rewrite IH by (intro H; apply Hnull; rewrite H; apply orb_true_r).
  reflexivity.
Qed.

Lemma forEntries_flags iname entries :
  Forall (fun e => (hasNull (snd e) = true -> sameStrict) ->
                   forall name regs,
                     generateTypeDefinition options (snd e) name regs =
                     generateTypeDefinition options' (snd e) name regs)
         entries ->
  (List.existsb (fun e => hasNull (snd e)) entries = true -> sameStrict) ->
  forall properties regs,
    forEntries options iname entries properties regs =
    forEntries options' iname entries properties regs.
Proof.
  induction 1 as [|[key val] rest Hval _ IH]; intros Hnull properties regs;
    [reflexivity|].
  rewrite !forEntries_cons. simpl in Hnull, Hval.
  rewrite Hval by (intro H; apply Hnull; rewrite H; reflexivity).
  unfold childName. rewrite HcamelCase.
  destruct (generateTypeDefinition options' val _ regs) as [t regs1].
  apply IH. intro H. apply Hnull. rewrite H. apply orb_true_r.
Qed.

Lemma generateTypeDefinition_flags value :
  (hasNull value = true -> sameStrict) ->
  forall name regs,
    generateTypeDefinition options value name regs =
    generateTypeDefinition options' value name regs.
Proof.
  induction value as [| b | x | s | items IH | entries IH]
    using JsonValue_nested_ind; intros Hnull name regs; try reflexivity.
  - simpl. rewrite (Hnull eq_refl). reflexivity.
  - rewrite !generateTypeDefinition_array.
    destruct items as [|item rest]; [reflexivity|].
    rewrite HdetectEnums.
    destruct (detectEnums options' && forallb isString (item :: rest));
      [reflexivity|].
    rewrite (mapItems_flags name (item :: rest) IH Hnull). reflexivity.
  - rewrite !generateTypeDefinition_object.
    rewrite (forEntries_flags (sanitizeName name) entries IH Hnull).
    reflexivity.
Qed.

End Flags.

(** X12. The walk does not read [markOptional]: with the other flags the
    same, it returns the same type expression and leaves the same
    registries. *)
Theorem markOptional_not_read_by_walk detect camel optional optional' strict
    value name regs :
  generateTypeDefinition (mkOptions detect camel optional strict)
    value name regs =
  generateTypeDefinition (mkOptions detect camel optional' strict)
    value name regs.
Proof. apply generateTypeDefinition_flags; reflexivity. Qed.

(** X13. On a value that holds no [null], [strictNullChecks] changes
    nothing in the output. *)
Theorem strictNullChecks_without_null detect camel optional strict strict'
    json rootName :
  hasNull json = false ->
  convertJsonToTypeScript (mkOptions detect camel optional strict)
    json rootName =
  convertJsonToTypeScript (mkOptions detect camel optional strict')
    json rootName.
Proof.
  intro Hnull. unfold convertJsonToTypeScript.
  rewrite (generateTypeDefinition_flags
             (mkOptions detect camel optional strict)
             (mkOptions detect camel optional strict') eq_refl eq_refl json)
    by (rewrite Hnull; discriminate).
  destruct (generateTypeDefinition _ _ _ _). reflexivity.
Qed.

Lemma strictNullChecks_without_null_witness :
  convertJsonToTypeScript (mkOptions true false false true)
    rolesExample "RootObject" =
  convertJsonToTypeScript (mkOptions true false false false)
    rolesExample "RootObject".
Proof.
  apply (strictNullChecks_without_null true false false true false
           rolesExample "RootObject").
  reflexivity.
Defined.

(** ** The component *)

Lemma isEmpty_true (s : string) : Str.isEmpty s = true <-> s = "".
Proof. destruct s; simpl; split; congruence. Qed.

Lemma validation_decides_aux (JSON_parse : string -> ParseResult)
    (s : AppState) :
  isValidJson (validateJsonInput JSON_parse s) = true <->
  jsonInput s <> "" /\ exists value, JSON_parse (jsonInput s) = Parsed value.
Proof.
  unfold isValidJson, validateJsonInput.
  destruct (Str.isEmpty (jsonInput s)) eqn:Hempty.
  - simpl. rewrite Hempty. simpl. apply isEmpty_true in Hempty.
    split; [discriminate | tauto].
  - assert (Hne : jsonInput s <> "")
      by (intro H; apply isEmpty_true in H; congruence).
    destruct (JSON_parse (jsonInput s)) as [value|[message|]];
      simpl; rewrite Hempty; simpl.
    + split; [eauto | reflexivity].
    + split; [discriminate | intros [_ [v H]]; discriminate H].
    + split; [discriminate | intros [_ [v H]]; discriminate H].
Qed.

(** X14. After [validateJsonInput], [isValidJson] holds exactly when the
    input is not empty and [JSON.parse] decodes it; an input that does not
    decode leaves a message that starts with [Invalid JSON: ]. *)
Theorem validation_decides (JSON_parse : string -> ParseResult) (s : AppState) :
  (isValidJson (validateJsonInput JSON_parse s) = true <->
   jsonInput s <> "" /\
   exists value, JSON_parse (jsonInput s) = Parsed value) /\
  (forall error,
      jsonInput s <> "" -> JSON_parse (jsonInput s) = Throws error ->
      startsWith "Invalid JSON: "
        (jsonError (validateJsonInput JSON_parse s))) /\
  (jsonInput s = "" -> jsonError (validateJsonInput JSON_parse s) = "").
Proof.
  split; [apply validation_decides_aux|]. split.
  - intros error Hne Hparse. unfold validateJsonInput.
    replace (Str.isEmpty (jsonInput s)) with false
      by (symmetry; destruct (jsonInput s); [congruence | reflexivity]).
    rewrite Hparse. destruct error as [message|]; simpl.
    + exists message. reflexivity.
    + exists "Unknown error". reflexivity.
  - intro Hempty. unfold validateJsonInput. rewrite Hempty. reflexivity.
Qed.

(** ** The conversion on a bounded stack *)

Lemma generateTypeDefinitionWithin_array stack options items name regs :
  generateTypeDefinitionWithin (S stack) options (JArray items) name regs =
  match items with
  | [] => Returned ("any[]", regs)
  | _ :: _ =>
      if detectEnums options && List.forallb isString items
      then Returned
             (name ++ "Enum",
              {| interfaces := interfaces regs;
                 enumTypes := JsMap.set (name ++ "Enum")
                                (JsSet.of_list (stringItems items))
                                (enumTypes regs) |})
      else match mapItemsWithin stack options name items regs with
           | RangeError => RangeError
           | Returned (itemTypes, regs') =>
               Returned (arrayTypeOf itemTypes, regs')
           end
  end.
Proof. destruct items; reflexivity. Qed.

Lemma generateTypeDefinitionWithin_object stack options entries name regs :
  generateTypeDefinitionWithin (S stack) options (JObject entries) name regs =
  match forEntriesWithin stack options (sanitizeName name) entries
          JsObject.empty regs with
  | RangeError => RangeError
  | Returned (properties, regs') =>
      Returned
        (sanitizeName name,
         {| interfaces := JsMap.set (sanitizeName name) properties
                            (interfaces regs');
            enumTypes := enumTypes regs' |})
  end.
Proof. reflexivity. Qed.

Lemma mapItemsWithin_cons stack options name item l r :
  mapItemsWithin stack options name (item :: l) r =
  match generateTypeDefinitionWithin stack options item (name ++ "Item") r with
  | RangeError => RangeError
  | Returned (t, r1) =>
      match mapItemsWithin stack options name l r1 with
      | RangeError => RangeError
      | Returned (ts, r2) => Returned (t :: ts, r2)
      end
  end.
Proof. reflexivity. Qed.

Lemma forEntriesWithin_cons stack options iname key val l properties r :
  forEntriesWithin stack options iname ((key, val) :: l) properties r =
  match generateTypeDefinitionWithin stack options val
          (childName options iname key) r with
  | RangeError => RangeError
  | Returned (propType, r1) =>
      forEntriesWithin stack options iname l
        (JsObject.set key propType properties) r1
  end.
Proof. reflexivity. Qed.

Lemma max_leb (a b n : nat) :
  (Nat.max a b <=? n)%nat = (a <=? n)%nat && (b <=? n)%nat.
Proof.
  destruct (Nat.leb_spec a n), (Nat.leb_spec b n); simpl;
    [apply Nat.leb_le | apply Nat.leb_gt ..]; lia.
Qed.

Section Bounded_stack.

Variable options : ConversionOptions.

Let exact (value : JsonValue) : Prop :=
  forall stack name regs,
    generateTypeDefinitionWithin stack options value name regs =
    if (callDepth options value <=? stack)%nat
    then Returned (generateTypeDefinition options value name regs)
    else RangeError.

Lemma mapItemsWithin_exact stack name items :
  Forall exact items ->
  forall regs,
    mapItemsWithin stack options name items regs =
    if (fold_right (fun item d => Nat.max (callDepth options item) d) 0 items
        <=? stack)%nat
    then Returned (mapItems options name items regs)
    else RangeError.
Proof.
  induction 1 as [|item rest Hitem _ IH]; intro regs; [reflexivity|].
  rewrite mapItemsWithin_cons, mapItems_cons, Hitem.
  cbn [fold_right]. rewrite max_leb.
  destruct (callDepth options item <=? stack)%nat; [|reflexivity].
  destruct (generateTypeDefinition options item (name ++ "Item") regs)
    as [t r1].
  rewrite IH. cbn [andb].
  destruct (fold_right _ 0 rest <=? stack)%nat; [|reflexivity].
  destruct (mapItems options name rest r1). reflexivity.
Qed.

Lemma forEntriesWithin_exact stack iname entries :
  Forall (fun e => exact (snd e)) entries ->
  forall properties regs,
    forEntriesWithin stack options iname entries properties regs =
    if (fold_right (fun e d => Nat.max (callDepth options (snd e)) d) 0 entries
        <=? stack)%nat
    then Returned (forEntries options iname entries properties regs)
    else RangeError.
Proof.
  induction 1 as [|[key val] rest Hval _ IH]; intros properties regs;
    [reflexivity|].
  rewrite forEntriesWithin_cons, forEntries_cons. simpl in Hval.
  rewrite Hval. cbn [fold_right snd]. rewrite max_leb.
  destruct (callDepth options val <=? stack)%nat; [|reflexivity].
  destruct (generateTypeDefinition options val
              (childName options iname key) regs) as [t r1].
  rewrite IH. reflexivity.
Qed.

(** The walk on a bounded stack returns what the walk returns when the
    stack holds the activations it needs, and throws otherwise. *)
Lemma generateTypeDefinitionWithin_exact value : exact value.
Proof.
  induction value as [| b | x | s | items IH | entries IH]
    using JsonValue_nested_ind; intros stack name regs;
    try (destruct stack; reflexivity).
  - destruct stack as [|stack].
    + destruct items; [reflexivity|]. cbn [callDepth].
      destruct (detectEnums options && _); reflexivity.
    + rewrite generateTypeDefinitionWithin_array,
        generateTypeDefinition_array.
      destruct items as [|item rest]; [reflexivity|]. cbn [callDepth].
      destruct (detectEnums options && forallb isString (item :: rest));
        [reflexivity|].
      rewrite (mapItemsWithin_exact stack name (item :: rest) IH).
      change (S ?d <=? S stack)%nat with (d <=? stack)%nat.
      destruct (_ <=? stack)%nat; [|reflexivity].
      destruct (mapItems options name (item :: rest) regs). reflexivity.
  - destruct stack as [|stack]; [reflexivity|].
    rewrite generateTypeDefinitionWithin_object,
      generateTypeDefinition_object.
    rewrite (forEntriesWithin_exact stack (sanitizeName name) entries IH).
    cbn [callDepth]. change (S ?d <=? S stack)%nat with (d <=? stack)%nat.
    destruct (_ <=? stack)%nat; [|reflexivity].
    destruct (forEntries options _ entries JsObject.empty regs).
    reflexivity.
Qed.

Lemma convertJsonToTypeScriptWithin_exact stack json rootName :
  convertJsonToTypeScriptWithin stack options json rootName =
  if (callDepth options json <=? stack)%nat
  then Returned (convertJsonToTypeScript options json rootName)
  else RangeError.
Proof.
  unfold convertJsonToTypeScriptWithin, convertJsonToTypeScript.
  rewrite generateTypeDefinitionWithin_exact.
  destruct (callDepth options json <=? stack)%nat; [|reflexivity].
  destruct (generateTypeDefinition options json rootName _). reflexivity.
Qed.

Lemma callDepth_positive value : 1 <= callDepth options value.
Proof.
  destruct value as [| | | | items | entries]; simpl; try lia.
  destruct items; [lia|]. destruct (detectEnums options && _); lia.
Qed.

Lemma callDepth_nestedArrays depth :
  callDepth options (nestedArrays depth) = S depth.
Proof.
  induction depth as [|depth IH]; [reflexivity|].
  cbn [nestedArrays callDepth fold_right].
  replace (detectEnums options
           && forallb isString [nestedArrays depth]) with false
    by (destruct depth; simpl; rewrite andb_false_r; reflexivity).
  rewrite IH, Nat.max_0_r. reflexivity.
Qed.

End Bounded_stack.

(** C9 as stated fails on every stack: the empty array inside as many
    arrays as the stack holds activations is a well-formed value on which
    the conversion throws. *)
Lemma deep_nesting_counterexample :
  ~ exists stack,
      neverThrowsOn stack (mkOptions true false false true) "RootObject".
Proof.
  intros [stack H]. destruct (H (nestedArrays stack)) as [output Hout].
  rewrite convertJsonToTypeScriptWithin_exact, callDepth_nestedArrays in Hout.
  replace (S stack <=? stack)%nat with false in Hout
    by (symmetry; apply Nat.leb_gt; lia).
  discriminate Hout.
Qed.

(** C9, amended. On every JSON value whose walk needs no more nested
    activations of [generateTypeDefinition] than the stack holds, with
    every root name and configuration, the conversion runs to its end and
    returns a string, that of [convertJsonToTypeScript]: the walk itself
    has no failure branch. On a value that is nested deeper the
    conversion throws a [RangeError]. Every value needs one activation at
    least, the empty array and the empty object one. *)
Theorem conversion_within_stack stack options json rootName :
  (callDepth options json <= stack ->
   convertJsonToTypeScriptWithin stack options json rootName =
   Returned (convertJsonToTypeScript options json rootName)) /\
  (stack < callDepth options json ->
   convertJsonToTypeScriptWithin stack options json rootName = RangeError) /\
  1 <= callDepth options json /\
  callDepth options (JArray []) = 1 /\
  callDepth options (JObject []) = 1.
Proof.
  rewrite convertJsonToTypeScriptWithin_exact.
  split; [|split; [|split; [|split]]].
  - intro H. apply Nat.leb_le in H. rewrite H. reflexivity.
  - intro H. apply Nat.leb_gt in H. rewrite H. reflexivity.
  - apply callDepth_positive.
  - reflexivity.
  - reflexivity.
Qed.

Lemma conversion_within_stack_witness :
  convertJsonToTypeScriptWithin 3 (mkOptions true false false true)
    nestedExample "RootObject" =
  Returned (convertJsonToTypeScript (mkOptions true false false true)
              nestedExample "RootObject").
Proof.
  apply (proj1 (conversion_within_stack 3 (mkOptions true false false true)
                  nestedExample "RootObject")).
  simpl. lia.
Defined.

(** ** The component and the conversion *)

(** X15. When [isValidJson] holds after [validateJsonInput], the state in
    which the button is enabled, the input decodes, and
    [generateTypeScript] does one of two things. If the stack holds the
    activations that the walk of the decoded value needs, it stores the
    conversion of the value under the root name and the options of the
    state, with no error message, and changes nothing else. If not, the
    conversion throws inside the [try]: the output that was there stays
    and the error message is that of the [RangeError]. *)
Theorem generation_after_validation (JSON_parse : string -> ParseResult)
    (stack : nat) (rangeErrorMessage : string) (s : AppState) :
  isValidJson (validateJsonInput JSON_parse s) = true ->
  exists value,
    JSON_parse (jsonInput s) = Parsed value /\
    (callDepth (appOptions s) value <= stack ->
     generateTypeScript JSON_parse stack rangeErrorMessage
       (validateJsonInput JSON_parse s) =
     {| jsonInput := jsonInput s;
        jsonError := "";
        typescriptOutput :=
          convertJsonToTypeScript (appOptions s) value (interfaceName s);
        interfaceName := interfaceName s;
        copied := copied s;
        appOptions := appOptions s |}) /\
    (stack < callDepth (appOptions s) value ->
     generateTypeScript JSON_parse stack rangeErrorMessage
       (validateJsonInput JSON_parse s) =
     {| jsonInput := jsonInput s;
        jsonError := "Error generating TypeScript: " ++ rangeErrorMessage;
        typescriptOutput := typescriptOutput s;
        interfaceName := interfaceName s;
        copied := copied s;
        appOptions := appOptions s |}).
Proof.
  intro Hvalid. apply validation_decides_aux in Hvalid.
  destruct Hvalid as [Hne [value Hparse]]. exists value.
  split; [assumption|].
  unfold validateJsonInput, generateTypeScript.
  replace (Str.isEmpty (jsonInput s)) with false
    by (symmetry; destruct (jsonInput s); [congruence | reflexivity]).
  rewrite Hparse. cbn [setJsonError jsonInput appOptions interfaceName].
  rewrite Hparse, convertJsonToTypeScriptWithin_exact.
  split; intro H.
  - apply Nat.leb_le in H. rewrite H. reflexivity.
  - apply Nat.leb_gt in H. rewrite H. reflexivity.
Qed.

(** With a parser that decodes [null] and nothing else. *)
Lemma generation_after_validation_witness :
  typescriptOutput
    (generateTypeScript
       (fun text => if (text =? "null")%string then Parsed JNull
                    else Throws (ErrorWith "Unexpected token"))
       1 "Maximum call stack size exceeded"
       (validateJsonInput
          (fun text => if (text =? "null")%string then Parsed JNull
                       else Throws (ErrorWith "Unexpected token"))
          (mkAppState "null" "Invalid JSON: x" "old" "RootObject" false
             (mkOptions true false false true)))) = "".
Proof.
  destruct (generation_after_validation
              (fun text => if (text =? "null")%string then Parsed JNull
                           else Throws (ErrorWith "Unexpected token"))
              1 "Maximum call stack size exceeded"
              (mkAppState "null" "Invalid JSON: x" "old" "RootObject" false
                 (mkOptions true false false true)) eq_refl)
    as [value [Hparse [Hreturns _]]].
  simpl in Hparse. injection Hparse as <-.
  rewrite Hreturns by (simpl; lia). reflexivity.
Defined.

(** X16. When [JSON.parse] throws on the input, [generateTypeScript] keeps
    the output that was there, leaves a message that starts with
    [Error generating TypeScript: ], and [isValidJson] no longer holds. *)
Theorem generation_failure (JSON_parse : string -> ParseResult)
    (stack : nat) (rangeErrorMessage : string)
    (s : AppState) (error : Thrown) :
  JSON_parse (jsonInput s) = Throws error ->
  typescriptOutput (generateTypeScript JSON_parse stack rangeErrorMessage s)
  = typescriptOutput s /\
  startsWith "Error generating TypeScript: "
    (jsonError (generateTypeScript JSON_parse stack rangeErrorMessage s)) /\
  isValidJson (generateTypeScript JSON_parse stack rangeErrorMessage s)
  = false.
Proof.
  intro Hparse. unfold generateTypeScript, isValidJson. rewrite Hparse.
  destruct error as [message|]; simpl.
  - split; [reflexivity|]. split; [exists message; reflexivity|].
    apply andb_false_r.
  - split; [reflexivity|]. split; [exists "Unknown error"; reflexivity|].
    apply andb_false_r.
Qed.

Lemma generation_failure_witness :
  typescriptOutput
    (generateTypeScript
       (fun text => if (text =? "null")%string then Parsed JNull
                    else Throws (ErrorWith "Unexpected token"))
       1 "Maximum call stack size exceeded"
       (mkAppState "{" "" "old" "RootObject" false
          (mkOptions true false false true))) = "old".
Proof.
  exact (proj1 (generation_failure
                  (fun text => if (text =? "null")%string then Parsed JNull
                               else Throws (ErrorWith "Unexpected token"))
                  1 "Maximum call stack size exceeded"
                  (mkAppState "{" "" "old" "RootObject" false
                     (mkOptions true false false true))
                  (ErrorWith "Unexpected token") eq_refl)).
Defined.

(** ** Arrays of strings with enum detection off *)

Lemma assoc_unique {A B : Type} (l : list (A * B)) (k : A) (a b : B) :
  NoDup (List.map fst l) -> In (k, a) l -> In (k, b) l -> a = b.
Proof.
  induction l as [|[k' v] l IH]; simpl; intros Hnd Ha Hb; [destruct Ha|].
  inversion Hnd as [|? ? Hnotin Hnd']; subst.
  assert (Hout : forall c, In (k', c) l -> False).
  { intros c Hc. apply Hnotin. apply in_map_iff. exists (k', c). auto. }
  destruct Ha as [Ha|Ha], Hb as [Hb|Hb].
  - congruence.
  - injection Ha as -> _. destruct (Hout _ Hb).
  - injection Hb as -> _. destruct (Hout _ Ha).
  - exact (IH Hnd' Ha Hb).
Qed.

(** The properties of the interface of an object whose keys are pairwise
    distinct and in the order of the runtime. *)
Lemma object_properties_registered options entries name regs :
  inKeyOrder (List.map fst entries) = true ->
  NoDup (List.map fst entries) ->
  JsMap.get (sanitizeName name)
    (interfaces (snd (generateTypeDefinition options (JObject entries)
                        name regs)))
  = Some (List.map
            (fun e => (fst e,
                       typeOf options (snd e)
                         (childName options (sanitizeName name) (fst e))))
            (List.filter (fun e => negb (fst e =? "__proto__")%string)
               entries)).
Proof.
  intros Hord Hnd. rewrite registries_after_walk. unfold written.
  cbn [interfaces records]. rewrite setAll_app.
  unfold setAll at 1. cbn [fold_left fst snd].
  rewrite JsMap_get_set, String.eqb_refl. f_equal.
  unfold propertiesOf.
  rewrite (assign_ordered
             (fun e => typeOf options (snd e)
                         (childName options (sanitizeName name) (fst e)))
             entries None JsObject.empty); try assumption.
  - reflexivity.
  - constructor.
Qed.

(** C2, amended. With [detectEnums] off the walk of any value, from any
    registries, registers no enum; a non-empty array of strings, wherever
    the walk meets it and whatever is registered, has the type
    [string[]] and leaves the registries as they are; and in the
    interface of an object with any number of properties, the property
    whose value is such an array has the type [string[]] and no other,
    not the name of an enum. *)
Theorem no_enum_without_detection options :
  detectEnums options = false ->
  (forall value name regs,
      enumTypes (snd (generateTypeDefinition options value name regs))
      = enumTypes regs) /\
  (forall items name regs,
      items <> [] -> List.forallb isString items = true ->
      generateTypeDefinition options (JArray items) name regs
      = ("string[]", regs)) /\
  (forall entries name regs key items,
      inKeyOrder (List.map fst entries) = true ->
      NoDup (List.map fst entries) ->
      In (key, JArray items) entries -> key <> "__proto__" ->
      items <> [] -> List.forallb isString items = true ->
      exists properties,
        JsMap.get (sanitizeName name)
          (interfaces (snd (generateTypeDefinition options (JObject entries)
                              name regs)))
        = Some properties /\
        In (key, "string[]") properties /\
        (forall type, In (key, type) properties -> type = "string[]")).
Proof.
  intro Hd. split; [|split].
  - intros value name regs. rewrite registries_after_walk. unfold written.
    simpl. rewrite enums_without_detection by assumption. reflexivity.
  - intros items name regs. apply string_array_without_detection, Hd.
  - intros entries name regs key items Hord Hnd Hin Hkey Hne Hs.
    eexists. split; [apply object_properties_registered; assumption|].
    assert (Htype : typeOf options (JArray items)
                      (childName options (sanitizeName name) key)
                    = "string[]").
    { unfold typeOf.
      rewrite (string_array_without_detection _ _ _ _ Hd Hne Hs).
      reflexivity. }
    assert (Hmem : In (key, "string[]")
              (List.map
                 (fun e => (fst e,
                            typeOf options (snd e)
                              (childName options (sanitizeName name) (fst e))))
                 (List.filter (fun e => negb (fst e =? "__proto__")%string)
                    entries))).
    { apply in_map_iff. exists (key, JArray items). cbn [fst snd].
      split; [rewrite Htype; reflexivity|].
      apply filter_In. split; [assumption|]. cbn [fst].
      apply String.eqb_neq in Hkey. rewrite Hkey. reflexivity. }
    split; [exact Hmem|].
    intros type Htyped.
    eapply assoc_unique; [|exact Htyped|exact Hmem].
    rewrite map_map. cbn [fst].
    clear - Hnd. induction entries as [|[k v] entries IH]; simpl;
      [constructor|].
    inversion Hnd as [|? ? Hnotin Hnd']; subst.
    destruct (negb (k =? "__proto__")%string); simpl; [|auto].
    constructor; [|auto].
    rewrite in_map_iff. intros [e [He Hin]]. apply filter_In in Hin.
    apply Hnotin. apply in_map_iff. exists e. tauto.
Qed.

(** On [{"id": 1, "roles": ["admin","user","admin"]}] the array comes
    second, after a property has been walked. *)
Lemma no_enum_without_detection_witness :
  exists properties,
    JsMap.get "RootObject"
      (interfaces
         (snd (generateTypeDefinition (mkOptions false false false true)
                 (JObject [("id", JNumber one);
                           ("roles", JArray [JString "admin"; JString "user";
                                             JString "admin"])])
                 "RootObject" noRegistries)))
    = Some properties /\
    In ("roles", "string[]") properties /\
    (forall type, In ("roles", type) properties -> type = "string[]").
Proof.
  apply (proj2 (proj2 (no_enum_without_detection
                         (mkOptions false false false true) eq_refl))
           [("id", JNumber one);
            ("roles", JArray [JString "admin"; JString "user";
                              JString "admin"])]
           "RootObject" noRegistries "roles"
           [JString "admin"; JString "user"; JString "admin"]).
  - reflexivity.
  - repeat constructor; simpl; intuition discriminate.
  - simpl. auto.
  - discriminate.
  - discriminate.
  - reflexivity.
Defined.

(** ** The names that a type expression holds *)

Section Type_expressions.

Variable options : ConversionOptions.

(** The type that the walk returns is the printing of the type
    expression of the value. *)
Lemma typeOf_printType value :
  forall name, typeOf options value name
               = printType (typeExprOf options value name).
Proof.
  induction value as [| b | x | s | items IH | entries IH]
    using JsonValue_nested_ind; intro name; try reflexivity.
  - destruct items as [|item rest]; [reflexivity|].
    cbn [typeExprOf].
    destruct (detectEnums options && forallb isString (item :: rest)) eqn:E.
    + unfold typeOf. rewrite generateTypeDefinition_array, E. reflexivity.
    + rewrite typeOf_array by (assumption || discriminate).
      cbn [printType]. rewrite map_map.
      rewrite (map_ext_in _ (fun item => printType
                               (typeExprOf options item (name ++ "Item")))).
      * reflexivity.
      * intros v Hv. rewrite Forall_forall in IH. apply IH, Hv.
  - apply typeOf_object.
Qed.

(** The names that the type expression of a value holds are written by
    the walk of the value. *)
Lemma refs_written value :
  forall name,
    (forall n, In n (interfaceRefs (typeExprOf options value name)) ->
               In n (List.map fst (records options value name))) /\
    (forall n, In n (enumRefs (typeExprOf options value name)) ->
               In n (List.map fst (enums options value name))).
Proof.
  induction value as [| b | x | s | items IH | entries IH]
    using JsonValue_nested_ind; intro name;
    try solve [split; intros n Hn; destruct Hn].
  - destruct items as [|item rest]; [split; intros n Hn; destruct Hn|].
    cbn [typeExprOf records enums].
    destruct (detectEnums options && forallb isString (item :: rest)).
    + split; intros n Hn; simpl in Hn; [destruct Hn | exact Hn].
    + rewrite Forall_forall in IH.
      split; intros n Hn; cbn [interfaceRefs enumRefs] in Hn;
        apply in_flat_map in Hn; destruct Hn as [t [Ht Hn]];
        apply in_map_iff in Ht; destruct Ht as [v [<- Hv]];
        apply in_map_iff.
      * apply (proj1 (IH v Hv _)) in Hn. apply in_map_iff in Hn.
        destruct Hn as [w [Hw Hin]]. exists w. split; [assumption|].
        apply in_flat_map. eauto.
      * apply (proj2 (IH v Hv _)) in Hn. apply in_map_iff in Hn.
        destruct Hn as [w [Hw Hin]]. exists w. split; [assumption|].
        apply in_flat_map. eauto.
  - split; intros n Hn; simpl in Hn; [|destruct Hn].
    destruct Hn as [<-|[]].
    cbn [records]. rewrite map_app, in_app_iff. right. left. reflexivity.
Qed.

End Type_expressions.

(** X4. In the registries that the walk of an object leaves, whatever
    they held before, every name of an interface and every name of an
    enum that the type of a property holds, be it the type itself or a
    part of an array or union type at any depth, is registered; the type
    is the printing of the type expression of the value. *)
Theorem property_types_registered options entries name regs key val :
  In (key, val) entries ->
  let regs' :=
    snd (generateTypeDefinition options (JObject entries) name regs) in
  let type :=
    typeExprOf options val (childName options (sanitizeName name) key) in
  typeOf options val (childName options (sanitizeName name) key)
  = printType type /\
  (forall n, In n (interfaceRefs type) ->
             In n (JsMap.keys (interfaces regs'))) /\
  (forall n, In n (enumRefs type) ->
             In n (JsMap.keys (enumTypes regs'))).
Proof.
  intros Hin regs' type. subst regs' type.
  rewrite registries_after_walk. unfold written. cbn [interfaces enumTypes].
  split; [apply typeOf_printType|].
  destruct (refs_written options val
              (childName options (sanitizeName name) key)) as [Hi He].
  split; intros n Hn; apply setAll_keys_written.
  - apply Hi in Hn. apply in_map_iff in Hn. destruct Hn as [w [Hw Hw']].
    apply in_map_iff. exists w. split; [assumption|].
    cbn [records]. apply in_or_app. left.
    apply in_flat_map. exists (key, val). auto.
  - apply He in Hn. apply in_map_iff in Hn. destruct Hn as [w [Hw Hw']].
    apply in_map_iff. exists w. split; [assumption|].
    cbn [enums]. apply in_flat_map. exists (key, val). auto.
Qed.

(** On [{"xs": [{"a": 1}, ["p"]]}] the type of [xs] is a union that holds
    the name of an interface and the name of an enum. *)
Lemma property_types_registered_witness :
  typeOf (mkOptions true false false true)
    (JArray [JObject [("a", JNumber one)]; JArray [JString "p"]])
    "RootObjectXs"
  = "(RootObjectXsItem | RootObjectXsItemEnum)[]" /\
  In "RootObjectXsItem"
    (JsMap.keys
       (interfaces
          (snd (generateTypeDefinition (mkOptions true false false true)
                  (JObject [("xs", JArray [JObject [("a", JNumber one)];
                                           JArray [JString "p"]])])
                  "RootObject" noRegistries)))) /\
  In "RootObjectXsItemEnum"
    (JsMap.keys
       (enumTypes
          (snd (generateTypeDefinition (mkOptions true false false true)
                  (JObject [("xs", JArray [JObject [("a", JNumber one)];
                                           JArray [JString "p"]])])
                  "RootObject" noRegistries)))).
Proof.
  destruct (property_types_registered (mkOptions true false false true)
              [("xs", JArray [JObject [("a", JNumber one)];
                              JArray [JString "p"]])]
              "RootObject" noRegistries "xs"
              (JArray [JObject [("a", JNumber one)]; JArray [JString "p"]])
              (or_introl eq_refl)) as [Hprint [Hi He]].
  split; [exact Hprint|]. split.
  - apply Hi. simpl. auto.
  - apply He. simpl. auto.
Defined.

(** ** The type of an array *)

Lemma enum_name_no_brackets (name T : string) : name ++ "Enum" <> T ++ "[]".
Proof.
  revert T. induction name as [|c name IH]; intro T.
  - destruct T as [|a [|b [|c [|d [|e T]]]]]; simpl; discriminate.
  - destruct T as [|a T]; simpl.
    + destruct name as [|c' [|c'' name]]; simpl; discriminate.
    + intro H. injection H as _ H. exact (IH T H).
Qed.

(** X7. The type expression of a non-empty array of strings under
    [detectEnums] is the bare name of its enum, [<name>Enum], which does
    not end with [[]]; the type expression of every other array ends
    with [[]]. *)
Theorem array_type_shape options items name :
  (items <> [] ->
   detectEnums options && List.forallb isString items = true ->
   typeOf options (JArray items) name = name ++ "Enum" /\
   ~ (exists T, typeOf options (JArray items) name = T ++ "[]")) /\
  (items = [] \/
   detectEnums options && List.forallb isString items = false ->
   exists T, typeOf options (JArray items) name = T ++ "[]").
Proof.
  split.
  - intros Hne Hcond.
    assert (Htype : typeOf options (JArray items) name = name ++ "Enum").
    { unfold typeOf. rewrite generateTypeDefinition_array.
      destruct items; [congruence|]. rewrite Hcond. reflexivity. }
    split; [exact Htype|]. rewrite Htype. intros [T HT].
    exact (enum_name_no_brackets name T HT).
  - intro H. destruct items as [|item rest].
    + exists "any". reflexivity.
    + destruct H as [H|Hcond]; [discriminate H|].
      rewrite typeOf_array by (assumption || discriminate).
      unfold arrayTypeOf. destruct (JsSet.size _ =? 1)%nat.
      * eexists. reflexivity.
      * eexists ("(" ++ String.concat " | " _ ++ ")").
        cbn [append]. rewrite append_assoc. reflexivity.
Qed.
